(** * FeedMixer: the fetch / select / merge / normalise pipeline

    A shallow embedding of [feedmixer.py].  Python dictionaries that are used
    as records (feed entries, author details, enclosures) are records with
    optional fields, an absent key being [None]; the dictionaries that are
    used as maps ([_error_urls], the normalised [metadata]) are [gmap]s keyed
    by strings.  Exceptions are explicit: every operation that can raise
    returns a [result]. *)

From Stdlib Require Import ZArith String List Sorting.Sorted.
From stdpp Require Import gmap strings list fin_maps.
Import ListNotations.

Local Open Scope string_scope.
Local Open Scope Z_scope.

(** ** Python exceptions *)

(** The exceptions that can leave the pipeline uncaught. *)
Inductive PyExc : Type :=
  | KeyError (key : string)
  | AttributeError (attr : string)
  | IndexError
  | TypeError
  | ValueError (msg : string).

Inductive result (A : Type) : Type :=
  | Ok (a : A)
  | Raise (e : PyExc).
Arguments Ok {A} a.
Arguments Raise {A} e.

#[global] Instance result_ret : MRet result := fun _ a => Ok a.

#[global] Instance result_bind : MBind result := fun _ _ k r =>
  match r with
  | Ok a => k a
  | Raise e => Raise e
  end.

#[global] Instance result_fmap : FMap result := fun _ _ f r =>
  match r with
  | Ok a => Ok (f a)
  | Raise e => Raise e
  end.

(** [for x in l: ...] with a body that may raise, collecting the values. *)
Fixpoint mapM {A B} (f : A -> result B) (l : list A) : result (list B) :=
  match l with
  | [] => Ok []
  | x :: l' => y ← f x; ys ← mapM f l'; Ok (y :: ys)
  end.

(** The two exception classes caught per source
    ([FCException = Union[RequestException, ParseError]]). *)
Inductive FCException : Type :=
  | RequestException (msg : string)
  | ParseError (msg : string).

(** ** Python sequence slicing *)

(** Clamping of one slice bound, as CPython's [PySlice_AdjustIndices] does it
    for a positive step: a negative bound counts from the end, and the result
    is clipped to [0 .. len]. *)
Definition adjust_index (len i : Z) : Z :=
  if i <? 0 then Z.max 0 (i + len) else Z.min i len.

(** [l[start:stop]] *)
Definition py_slice {A} (start stop : Z) (l : list A) : list A :=
  let len := Z.of_nat (length l) in
  let lo := adjust_index len start in
  let hi := adjust_index len stop in
  take (Z.to_nat (hi - lo)) (drop (Z.to_nat lo) l).

(** ** Parsed feeds (what [feedparser.parse] returns) *)

Record AuthorDetail : Type := {
  email : option string;
  name : option string;
  href : option string
}.

Record Tag : Type := { term : option string }.

(** An enclosure is a [FeedParserDict]; reading [enc.href] of one that has no
    such key raises [AttributeError]. *)
Record EnclosureDict : Type := {
  enc_href : option string;
  enc_length : option string;
  enc_type : option string
}.

(** One entry of a feed; the field [e_k] is the key ['k'] of the entry. *)
Record Entry : Type := {
  e_title : option string;
  e_link : option string;
  e_description : option string;
  e_author_detail : option AuthorDetail;
  e_published : option string;
  e_published_parsed : option (list Z);
  e_updated_parsed : option (list Z);
  e_comments : option string;
  e_id : option string;
  e_license : option string;
  e_tags : option (list Tag);
  e_enclosures : option (list EnclosureDict)
}.

(** [f = feedparser.parse(resp.text)]: the keys of [f] that the pipeline
    reads.  [feed_author_detail] is [f.feed.author_detail]. *)
Record FeedParserDict : Type := {
  entries : list Entry;
  bozo : bool;
  bozo_exception : option string;
  feed_author_detail : option AuthorDetail
}.

(** The outcome of one future: [future.result()] either raises the
    [RequestException] that [cache_get] raised, whose message is kept, or
    returns the response, which is identified here with the parse of its
    text. *)
Inductive FutureResult : Type :=
  | Raised (e : string)
  | Response (f : FeedParserDict).

(** ** Normalised records (what [feedgenerator] consumes) *)

Record datetime : Type := {
  year : Z; month : Z; day : Z; hour : Z; minute : Z; second : Z
}.

Record Enclosure : Type := { url : string; length_ : string; mime_type : string }.

(** The values stored in a [metadata] dictionary. *)
Inductive PyVal : Type :=
  | VNone
  | VStr (s : string)
  | VDateTime (d : datetime)
  | VTerms (l : list (option string))
  | VEnclosures (l : list Enclosure).

(** [d.get(k)]: the value, or Python's [None]. *)
Definition py_get (o : option string) : PyVal :=
  match o with
  | Some s => VStr s
  | None => VNone
  end.

(** ** [datetime.datetime(year, month, day, hour, minute, second)] *)

Definition is_leap (y : Z) : bool :=
  (y mod 4 =? 0) && (negb (y mod 100 =? 0) || (y mod 400 =? 0)).

Definition days_in_month (y m : Z) : Z :=
  if m =? 2 then (if is_leap y then 29 else 28)
  else if (m =? 4) || (m =? 6) || (m =? 9) || (m =? 11) then 30
  else 31.

(** The constructor checks the date fields, then the time fields, and raises
    [ValueError] on the first one out of range; with a number of arguments it
    does not accept it raises [TypeError]. *)
Definition datetime_new (args : list Z) : result datetime :=
  match args with
  | [y; mo; d; h; mi; s] =>
      if negb ((1 <=? y) && (y <=? 9999)) then Raise (ValueError "year is out of range")
      else if negb ((1 <=? mo) && (mo <=? 12)) then Raise (ValueError "month must be in 1..12")
      else if negb ((1 <=? d) && (d <=? days_in_month y mo)) then
        Raise (ValueError "day is out of range for month")
      else if negb ((0 <=? h) && (h <=? 23)) then Raise (ValueError "hour must be in 0..23")
      else if negb ((0 <=? mi) && (mi <=? 59)) then Raise (ValueError "minute must be in 0..59")
      else if negb ((0 <=? s) && (s <=? 59)) then Raise (ValueError "second must be in 0..59")
      else Ok {| year := y; month := mo; day := d; hour := h; minute := mi; second := s |}
  | _ => Raise TypeError
  end.

(** Python orders naive datetimes field by field. *)
Definition datetime_fields (d : datetime) : list Z :=
  [year d; month d; day d; hour d; minute d; second d].

Fixpoint lex_leb (a b : list Z) : bool :=
  match a, b with
  | [], _ => true
  | _ :: _, [] => false
  | x :: a', y :: b' => (x <? y) || ((x =? y) && lex_leb a' b')
  end.

Definition datetime_leb (a b : datetime) : bool :=
  lex_leb (datetime_fields a) (datetime_fields b).

(** ** [FeedMixer.extract_meta] *)

(** [datetime.datetime( *tp[:5] + (min(tp[5], 59),))] *)
Definition time_struct_to_datetime (tp : list Z) : result datetime :=
  match tp !! 5%nat with
  | None => Raise IndexError
  | Some s => datetime_new (py_slice 0 5 tp ++ [Z.min s 59])
  end.

(** [tp = e.get(key); if tp: metadata[out] = datetime(...)]: an absent key
    and an empty tuple are both false. *)
Definition set_date (out : string) (tp : option (list Z))
    (metadata : gmap string PyVal) : result (gmap string PyVal) :=
  match tp with
  | Some (x :: tp') =>
      d ← time_struct_to_datetime (x :: tp');
      Ok (<[out := VDateTime d]> metadata)
  | _ => Ok metadata
  end.

(** The attribute read [enc.attr] of a [FeedParserDict]. *)
Definition getattr (attr : string) (o : option string) : result string :=
  match o with
  | Some v => Ok v
  | None => Raise (AttributeError attr)
  end.

(** [feedgenerator.Enclosure(enc.href, enc.length, enc.type)]; the arguments
    are evaluated left to right. *)
Definition make_enclosure (enc : EnclosureDict) : result Enclosure :=
  h ← getattr "href" (enc_href enc);
  l ← getattr "length" (enc_length enc);
  t ← getattr "type" (enc_type enc);
  Ok {| url := h; length_ := l; mime_type := t |}.

(** The body of the loop of [extract_meta]: the [metadata] of one entry. *)
Definition extract_entry (e : Entry) : result (gmap string PyVal) :=
  let metadata : gmap string PyVal := ∅ in
  let metadata := <["title" := VStr (default EmptyString (e_title e))]> metadata in
  let metadata := <["link" := VStr (default EmptyString (e_link e))]> metadata in
  let metadata := <["description" := VStr (default EmptyString (e_description e))]> metadata in
  let metadata :=
    match e_author_detail e with
    | Some a =>
        <["author_link" := py_get (href a)]>
          (<["author_name" := py_get (name a)]>
            (<["author_email" := py_get (email a)]> metadata))
    | None => metadata
    end in
  metadata ← set_date "pubdate" (e_published_parsed e) metadata;
  metadata ← set_date "updateddate" (e_updated_parsed e) metadata;
  let metadata := <["comments" := py_get (e_comments e)]> metadata in
  let metadata := <["unique_id" := py_get (e_id e)]> metadata in
  let metadata := <["item_copyright" := py_get (e_license e)]> metadata in
  let metadata :=
    match e_tags e with
    | Some ts => <["categories" := VTerms (map term ts)]> metadata
    | None => metadata
    end in
  match e_enclosures e with
  | Some encs =>
      enclist ← mapM make_enclosure encs;
      Ok (<["enclosures" := VEnclosures enclist]> metadata)
  | None => Ok metadata
  end.

Definition extract_meta (parsed_entries : list Entry)
    : result (list (gmap string PyVal)) :=
  mapM extract_entry parsed_entries.

(** ** Selection and author backfill (the body of the [try]) *)

(** [newest = f.entries if num_keep == -1 else f.entries[0:num_keep]] *)
Definition keep_newest (num_keep : Z) (f_entries : list Entry) : list Entry :=
  if num_keep =? -1 then f_entries else py_slice 0 num_keep f_entries.

(** [e['author_detail'] = a] *)
Definition set_author_detail (a : AuthorDetail) (e : Entry) : Entry :=
  {| e_title := e_title e; e_link := e_link e; e_description := e_description e;
     e_author_detail := Some a;
     e_published := e_published e; e_published_parsed := e_published_parsed e;
     e_updated_parsed := e_updated_parsed e; e_comments := e_comments e;
     e_id := e_id e; e_license := e_license e; e_tags := e_tags e;
     e_enclosures := e_enclosures e |}.

(** [if 'author_detail' in f.feed: for e in newest: if 'author_detail' not in
    e: e['author_detail'] = f.feed.author_detail] *)
Definition backfill_author (feed_author : option AuthorDetail)
    (newest : list Entry) : list Entry :=
  match feed_author with
  | Some a =>
      map (fun e =>
             match e_author_detail e with
             | None => set_author_detail a e
             | Some _ => e
             end) newest
  | None => newest
  end.

(** [len(f.get('entries')) == 0 and f.get('bozo')] *)
Definition parse_err (f : FeedParserDict) : bool :=
  (Z.of_nat (length (entries f)) =? 0) && bozo f.

(** ["{}".format(f.get('bozo_exception'))] *)
Definition format_exception (o : option string) : string :=
  match o with
  | Some s => s
  | None => "None"
  end.

(** The body of the [try] for one completed future: the exception caught by
    the [except] clause, or the entries appended to [parsed_entries]. *)
Definition try_source (num_keep : Z) (r : FutureResult)
    : FCException + list Entry :=
  match r with
  | Raised msg => inl (RequestException msg)
  | Response f =>
      if parse_err f then
        inl (ParseError (String.append "Parse error: "
                           (format_exception (bozo_exception f))))
      else
        inr (backfill_author (feed_author_detail f)
               (keep_newest num_keep (entries f)))
  end.

(** One iteration of [for future in as_completed(future_to_url)]. *)
Definition collect (num_keep : Z)
    (acc : list Entry * gmap string FCException)
    (fut : string * FutureResult) : list Entry * gmap string FCException :=
  match try_source num_keep fut.2 with
  | inr newest => ((acc.1 ++ newest)%list, acc.2)
  | inl e => (acc.1, <[fut.1 := e]> acc.2)
  end.

(** The whole loop, over the futures in their order of completion. *)
Definition collect_all (num_keep : Z) (completed : list (string * FutureResult))
    : list Entry * gmap string FCException :=
  fold_left (collect num_keep) completed ([], ∅).

(** ** [parsed_entries.sort(key=lambda e: e['published'], reverse=True)] *)

(** The key function: a subscript, which raises [KeyError] on an entry that
    has no ['published']. *)
Definition sort_key (e : Entry) : result string :=
  match e_published e with
  | Some s => Ok s
  | None => Raise (KeyError "published")
  end.

(** Stable insertion into a list that is in non-increasing key order: the
    new element, which preceded the others in the input, goes before the
    first element whose key is not greater than its own. *)
Fixpoint insert_desc (x : string * Entry) (l : list (string * Entry))
    : list (string * Entry) :=
  match l with
  | [] => [x]
  | y :: l' => if String.ltb x.1 y.1 then y :: insert_desc x l' else x :: y :: l'
  end.

Definition sort_desc (l : list (string * Entry)) : list (string * Entry) :=
  foldr insert_desc [] l.

(** The keys are computed for every element first (and the sort raises if
    one of them raises); the list is then sorted on the keys alone, in
    non-increasing order, equal keys keeping their original order. *)
Definition sort_by_published (parsed_entries : list Entry) : result (list Entry) :=
  keys ← mapM sort_key parsed_entries;
  Ok ((sort_desc (zip keys parsed_entries)).*2).

(** ** The [FeedMixer] object *)

(** The attributes of an instance.  The cache handle and the injected
    [cache_get] are the outside world: what they deliver reaches the pipeline
    as the results of the completed futures. *)
Record FeedMixer : Type := {
  title : string;
  link : string;
  desc : string;
  max_feeds : Z;
  _feeds : list string;
  _num_keep : Z;
  max_threads : Z;
  _mixed_entries : list (gmap string PyVal);
  _error_urls : gmap string FCException
}.

(** The object together with the calls of [cache_get] submitted so far (one
    URL per call), which is how a run of the pipeline is observed. *)
Record Process : Type := {
  self : FeedMixer;
  submitted : list string
}.

Definition with_title (v : string) (fm : FeedMixer) : FeedMixer :=
  {| title := v; link := link fm; desc := desc fm; max_feeds := max_feeds fm;
     _feeds := _feeds fm; _num_keep := _num_keep fm;
     max_threads := max_threads fm; _mixed_entries := _mixed_entries fm;
     _error_urls := _error_urls fm |}.

Definition with_feeds (v : list string) (fm : FeedMixer) : FeedMixer :=
  {| title := title fm; link := link fm; desc := desc fm;
     max_feeds := max_feeds fm; _feeds := v; _num_keep := _num_keep fm;
     max_threads := max_threads fm; _mixed_entries := _mixed_entries fm;
     _error_urls := _error_urls fm |}.

Definition with_num_keep (v : Z) (fm : FeedMixer) : FeedMixer :=
  {| title := title fm; link := link fm; desc := desc fm;
     max_feeds := max_feeds fm; _feeds := _feeds fm; _num_keep := v;
     max_threads := max_threads fm; _mixed_entries := _mixed_entries fm;
     _error_urls := _error_urls fm |}.

Definition with_mixed_entries (v : list (gmap string PyVal)) (fm : FeedMixer)
    : FeedMixer :=
  {| title := title fm; link := link fm; desc := desc fm;
     max_feeds := max_feeds fm; _feeds := _feeds fm; _num_keep := _num_keep fm;
     max_threads := max_threads fm; _mixed_entries := v;
     _error_urls := _error_urls fm |}.

Definition with_error_urls (v : gmap string FCException) (fm : FeedMixer)
    : FeedMixer :=
  {| title := title fm; link := link fm; desc := desc fm;
     max_feeds := max_feeds fm; _feeds := _feeds fm; _num_keep := _num_keep fm;
     max_threads := max_threads fm; _mixed_entries := _mixed_entries fm;
     _error_urls := v |}.

Definition on_self (f : FeedMixer -> FeedMixer) (p : Process) : Process :=
  {| self := f (self p); submitted := submitted p |}.

(** [FeedMixer.__init__] with its default arguments made explicit. *)
Definition __init__ (title link desc : string) (feeds : list string)
    (num_keep max_threads max_feeds : Z) : FeedMixer :=
  {| title := title; link := link; desc := desc; max_feeds := max_feeds;
     _feeds := py_slice 0 max_feeds feeds; _num_keep := num_keep;
     max_threads := max_threads; _mixed_entries := []; _error_urls := ∅ |}.

(** The [feeds] setter. *)
Definition set_feeds (value : list string) (p : Process) : Process :=
  on_self (fun fm =>
    with_mixed_entries [] (with_feeds (py_slice 0 (max_feeds fm) value) fm)) p.

(** The [num_keep] setter: it stores the value and assigns [feeds] to
    itself. *)
Definition set_num_keep (value : Z) (p : Process) : Process :=
  let p := on_self (with_num_keep value) p in
  set_feeds (_feeds (self p)) p.

(** A plain attribute assignment, [fm.title = value]. *)
Definition set_title (value : string) (p : Process) : Process :=
  on_self (with_title value) p.

(** The part of [__fetch_entries] that runs once the executor exists: the
    body of the [with] block, the sort and the normalisation.  [completed]
    lists the futures as [as_completed] yields them, each with its URL and
    its result; the executor was handed one call of [cache_get] per URL of
    [self.feeds].  The exceptions of the sort and of [extract_meta] are
    caught nowhere and leave the method after [_error_urls] has been
    rebuilt. *)
Definition fetch_with_executor (completed : list (string * FutureResult))
    (p : Process) : result () * Process :=
  let fm := self p in
  let calls := (submitted p ++ _feeds fm)%list in
  let acc := collect_all (_num_keep fm) completed in
  let fm := with_error_urls acc.2 fm in
  match (sorted ← sort_by_published acc.1; extract_meta sorted) with
  | Ok mixed_entries =>
      (Ok (), {| self := with_mixed_entries mixed_entries fm; submitted := calls |})
  | Raise e => (Raise e, {| self := fm; submitted := calls |})
  end.

(** [FeedMixer.__fetch_entries].  The method empties [_error_urls] and
    builds [ThreadPoolExecutor(max_workers=self.max_threads)], whose
    constructor raises [ValueError] for a number of workers that is not
    positive: the method is then left before anything is submitted.
    Otherwise the run goes on as [fetch_with_executor]. *)
Definition __fetch_entries (completed : list (string * FutureResult))
    (p : Process) : result () * Process :=
  if max_threads (self p) <=? 0 then
    (Raise (ValueError "max_workers must be greater than 0"),
     {| self := with_error_urls ∅ (self p); submitted := submitted p |})
  else fetch_with_executor completed p.

(** The [mixed_entries] property. *)
Definition mixed_entries (completed : list (string * FutureResult))
    (p : Process) : result (list (gmap string PyVal)) * Process :=
  if Z.of_nat (length (_mixed_entries (self p))) <? 1 then
    match __fetch_entries completed p with
    | (Ok _, p') => (Ok (_mixed_entries (self p')), p')
    | (Raise e, p') => (Raise e, p')
    end
  else (Ok (_mixed_entries (self p)), p).

(** The [error_urls] property. *)
Definition error_urls (p : Process) : gmap string FCException :=
  _error_urls (self p).

(** ** Rendering *)

Inductive GenCls : Type := Atom1Feed | Rss201rev2Feed.

Section Render.
(** The renderers are external: [writeString] stands for
    [gen_cls(title, link, description)] filled by [add_item] with each
    entry and written out, [json_dumps] for [json.dumps] with its
    arguments. *)
Variable writeString :
  GenCls -> string -> string -> string -> list (gmap string PyVal) -> string.
Variable json_dumps : list (gmap string PyVal) -> string.

(** [__generate_feed(gen_cls).writeString('utf-8')] *)
Definition generate_feed (gen_cls : GenCls)
    (completed : list (string * FutureResult)) (p : Process)
    : result string * Process :=
  let fm := self p in
  match mixed_entries completed p with
  | (Ok es, p') => (Ok (writeString gen_cls (title fm) (link fm) (desc fm) es), p')
  | (Raise e, p') => (Raise e, p')
  end.

Definition atom_feed := generate_feed Atom1Feed.
Definition rss_feed := generate_feed Rss201rev2Feed.

Definition json_feed (completed : list (string * FutureResult)) (p : Process)
    : result string * Process :=
  match mixed_entries completed p with
  | (Ok es, p') => (Ok (json_dumps es), p')
  | (Raise e, p') => (Raise e, p')
  end.
End Render.

(** * Specification predicates *)

(** [e'] is [e] with possibly another author. *)
Definition same_but_author (e e' : Entry) : Prop :=
  e_title e' = e_title e /\ e_link e' = e_link e /\
  e_description e' = e_description e /\ e_published e' = e_published e /\
  e_published_parsed e' = e_published_parsed e /\
  e_updated_parsed e' = e_updated_parsed e /\ e_comments e' = e_comments e /\
  e_id e' = e_id e /\ e_license e' = e_license e /\ e_tags e' = e_tags e /\
  e_enclosures e' = e_enclosures e.


(** A calendar tuple that [datetime] accepts once its seconds are clamped:
    at least six fields, a date that exists and a time of day. *)
Definition valid_time_struct (tp : list Z) : Prop :=
  exists y mo d h mi s rest,
    tp = y :: mo :: d :: h :: mi :: s :: rest /\
    1 <= y <= 9999 /\ 1 <= mo <= 12 /\ 1 <= d <= days_in_month y mo /\
    0 <= h <= 23 /\ 0 <= mi <= 59 /\ 0 <= s.

(** The value of a date key of an entry is absent, false, or valid. *)
Definition date_ok (tp : option (list Z)) : Prop :=
  match tp with
  | Some (x :: tp') => valid_time_struct (x :: tp')
  | _ => True
  end.

Definition complete_enclosure (enc : EnclosureDict) : Prop :=
  is_Some (enc_href enc) /\ is_Some (enc_length enc) /\ is_Some (enc_type enc).

(** The entries on which [extract_meta] does not raise. *)
Definition normalisable (e : Entry) : Prop :=
  date_ok (e_published_parsed e) /\ date_ok (e_updated_parsed e) /\
  match e_enclosures e with
  | Some encs => Forall complete_enclosure encs
  | None => True
  end.

(** The date stored for a calendar tuple: the instant of its first six
    fields, the seconds clamped to 59; nothing for an absent or empty
    tuple. *)
Definition date_normalised (tp : option (list Z)) (v : option PyVal) : Prop :=
  match tp with
  | Some (y :: mo :: d :: h :: mi :: s :: _) =>
      v = Some (VDateTime {| year := y; month := mo; day := d; hour := h;
                             minute := mi; second := Z.min s 59 |})
  | Some (_ :: _) => False
  | _ => v = None
  end.

(** What the normalised record [m] of the entry [e] holds. *)
Definition normalised (e : Entry) (m : gmap string PyVal) : Prop :=
  m !! "title" = Some (VStr (default EmptyString (e_title e))) /\
  m !! "link" = Some (VStr (default EmptyString (e_link e))) /\
  m !! "description" = Some (VStr (default EmptyString (e_description e))) /\
  match e_author_detail e with
  | Some a =>
      m !! "author_email" = Some (py_get (email a)) /\
      m !! "author_name" = Some (py_get (name a)) /\
      m !! "author_link" = Some (py_get (href a))
  | None =>
      m !! "author_email" = None /\ m !! "author_name" = None /\
      m !! "author_link" = None
  end /\
  date_normalised (e_published_parsed e) (m !! "pubdate") /\
  date_normalised (e_updated_parsed e) (m !! "updateddate").

(** [a] does not sort after [b]: the ['published'] text of [a] is not less
    than that of [b], as Python compares strings. *)
Definition published_ge (a b : Entry) : Prop :=
  exists ka kb, e_published a = Some ka /\ e_published b = Some kb /\
                String.ltb ka kb = false.

(** The same on the pairs of a key and its entry that the sort works on. *)
Definition key_ge (a b : string * Entry) : Prop := String.ltb a.1 b.1 = false.

(** [a.pubdate >= b.pubdate] on two normalised records that have one. *)
Definition pubdate_ge (a b : gmap string PyVal) : Prop :=
  exists da db, a !! "pubdate" = Some (VDateTime da) /\
                b !! "pubdate" = Some (VDateTime db) /\
                datetime_leb db da = true.

(** The future [fut] failed: the body of the [try] raised for it. *)
Definition failing (num_keep : Z) (fut : string * FutureResult) : Prop :=
  exists e, try_source num_keep fut.2 = inl e.

(** The entries that the future [fut] adds to [parsed_entries]. *)
Definition contribution (num_keep : Z) (fut : string * FutureResult)
    : list Entry :=
  match try_source num_keep fut.2 with
  | inr newest => newest
  | inl _ => []
  end.

(** An access to [mixed_entries] that runs the pipeline: it is a call of
    [__fetch_entries], which submits one call of [cache_get] per configured
    URL when [max_threads] is positive, and which otherwise raises the
    [ValueError] of the executor without submitting anything. *)
Definition runs_pipeline (completed : list (string * FutureResult))
    (p : Process) : Prop :=
  mixed_entries completed p =
    match __fetch_entries completed p with
    | (Ok _, p') => (Ok (_mixed_entries (self p')), p')
    | (Raise e, p') => (Raise e, p')
    end /\
  (0 < max_threads (self p) ->
   submitted (mixed_entries completed p).2
   = (submitted p ++ _feeds (self p))%list) /\
  (max_threads (self p) <= 0 ->
   (mixed_entries completed p).1
   = Raise (ValueError "max_workers must be greater than 0") /\
   submitted (mixed_entries completed p).2 = submitted p).

(** What a reader of the merged list sees of each record: its title and its
    publication date. *)
Definition titles_and_dates (r : result (list (gmap string PyVal)))
    : result (list (option PyVal * option PyVal)) :=
  fmap (M := list) (fun m : gmap string PyVal => (m !! "title", m !! "pubdate")) <$> r.
(** * Sample data *)

(** An entry with a title and nothing else. *)
Definition bare_entry (t : string) : Entry :=
  {| e_title := Some t; e_link := None; e_description := None;
     e_author_detail := None; e_published := None;
     e_published_parsed := None; e_updated_parsed := None;
     e_comments := None; e_id := None; e_license := None; e_tags := None;
     e_enclosures := None |}.

(** An entry with a title, a link and its date, both as the text of the feed
    and parsed. *)
Definition dated_entry (t pub : string) (tp : list Z) : Entry :=
  {| e_title := Some t; e_link := Some "http://example.org/post";
     e_description := None; e_author_detail := None; e_published := Some pub;
     e_published_parsed := Some tp; e_updated_parsed := None;
     e_comments := None; e_id := None; e_license := None; e_tags := None;
     e_enclosures := None |}.

(** A well-formed feed with the given entries and no feed-level author. *)
Definition feed_of (es : list Entry) : FeedParserDict :=
  {| entries := es; bozo := false; bozo_exception := None;
     feed_author_detail := None |}.

Definition alice : AuthorDetail :=
  {| email := Some "alice@example.org"; name := Some "Alice"; href := None |}.


Definition three_entries : list Entry :=
  [bare_entry "first"; bare_entry "second"; bare_entry "third"].

(** An entry published during the leap second that ended 2016, with an
    author of its own. *)
Definition leap_entry : Entry :=
  {| e_title := Some "Happy new year"; e_link := Some "http://example.org/2017";
     e_description := None; e_author_detail := Some alice;
     e_published := Some "2016-12-31T23:59:60Z";
     e_published_parsed := Some [2016; 12; 31; 23; 59; 60; 5; 366; 0];
     e_updated_parsed := None; e_comments := None; e_id := None;
     e_license := None; e_tags := Some [{| term := Some "news" |}];
     e_enclosures := None |}.

(** An Atom entry whose enclosure link carries an address only:
    [<link rel="enclosure" href="http://example.org/episode.mp3"/>]. *)
Definition podcast_entry : Entry :=
  {| e_title := Some "Episode 1"; e_link := Some "http://example.org/1";
     e_description := Some "The first episode"; e_author_detail := None;
     e_published := Some "2024-01-01T00:00:00Z";
     e_published_parsed := Some [2024; 1; 1; 0; 0; 0; 0; 1; 0];
     e_updated_parsed := None; e_comments := None; e_id := None;
     e_license := None; e_tags := None;
     e_enclosures :=
       Some [{| enc_href := Some "http://example.org/episode.mp3";
                enc_length := None; enc_type := None |}] |}.

(** Two items of an RSS feed, dated as RSS dates are written (RFC 822). *)
Definition january_2023 : Entry :=
  dated_entry "older" "Tue, 03 Jan 2023 10:00:00 GMT" [2023; 1; 3; 10; 0; 0; 1; 3; 0].

Definition january_2024 : Entry :=
  dated_entry "newer" "Mon, 01 Jan 2024 10:00:00 GMT" [2024; 1; 1; 10; 0; 0; 0; 1; 0].

(** A mixer with the default settings over the given feeds, and a process
    that has fetched nothing yet. *)
Definition default_mixer (feeds : list string) : FeedMixer :=
  __init__ "Title" EmptyString EmptyString feeds 3 5 100.

Definition fresh (feeds : list string) : Process :=
  {| self := default_mixer feeds; submitted := [] |}.
(** * Further specification predicates *)

(** The exceptions caught during one run for the futures of the URL [u],
    in the order in which the futures completed. *)
Definition errors_for (num_keep : Z) (u : string)
    (completed : list (string * FutureResult)) : list FCException :=
  omap (fun fut : string * FutureResult =>
          if decide (fut.1 = u) then
            match try_source num_keep fut.2 with
            | inl e => Some e
            | inr _ => None
            end
          else None) completed.

(** The three keys that [add_item] requires, each holding a string. *)
Definition mandatory (m : gmap string PyVal) : Prop :=
  exists t l d, m !! "title" = Some (VStr t) /\ m !! "link" = Some (VStr l) /\
                m !! "description" = Some (VStr d).

(** What a client can do to an instance: assign [feeds], [num_keep] or
    [title], or read [mixed_entries] while the sources deliver
    [completed]. *)
Inductive step : Process -> Process -> Prop :=
  | step_set_feeds (value : list string) (p : Process) :
      step p (set_feeds value p)
  | step_set_num_keep (value : Z) (p : Process) :
      step p (set_num_keep value p)
  | step_set_title (value : string) (p : Process) :
      step p (set_title value p)
  | step_mixed_entries (completed : list (string * FutureResult)) (p : Process) :
      step p (mixed_entries completed p).2.

(** The processes that a client can bring an instance to after having
    constructed it. *)
Inductive reachable : Process -> Prop :=
  | reachable_init (title link desc : string) (feeds : list string)
      (num_keep max_threads max_feeds : Z) :
      reachable {| self := __init__ title link desc feeds num_keep
                             max_threads max_feeds;
                   submitted := [] |}
  | reachable_step (p q : Process) :
      reachable p -> step p q -> reachable q.

(** The number of entries that a source with the parse [f] is expected to
    contribute for a [num_keep] that is a count. *)
Definition expected_count (num_keep : Z) (r : FutureResult) : nat :=
  match r with
  | Raised _ => 0
  | Response f => Nat.min (Z.to_nat num_keep) (length (entries f))
  end.

(** The result of [f x] as an option, for reading a successful [mapM] as a
    plain map. *)
Definition returned {A} (r : result A) : option A :=
  match r with
  | Ok a => Some a
  | Raise _ => None
  end.

(** The enclosure object built from an enclosure of the feed. *)
Definition enclosure_of (enc : EnclosureDict) (x : Enclosure) : Prop :=
  enc_href enc = Some (url x) /\ enc_length enc = Some (length_ x) /\
  enc_type enc = Some (mime_type x).

(** The keys of the record [m] of the entry [e] other than those of
    [normalised]: three that are always set, to [None] when the entry has
    no such key, and two that are set when the entry has tags, or
    enclosures. *)
Definition carries_rest (e : Entry) (m : gmap string PyVal) : Prop :=
  m !! "comments" = Some (py_get (e_comments e)) /\
  m !! "unique_id" = Some (py_get (e_id e)) /\
  m !! "item_copyright" = Some (py_get (e_license e)) /\
  m !! "categories" = (fun ts => VTerms (term <$> ts)) <$> e_tags e /\
  match e_enclosures e with
  | Some encs =>
      exists l, m !! "enclosures" = Some (VEnclosures l) /\
                Forall2 enclosure_of encs l
  | None => m !! "enclosures" = None
  end.

(** * Properties *)

(** ** Slices *)

Lemma py_slice_prefix {A} (n : Z) (l : list A) :
  0 <= n -> py_slice 0 n l = take (Z.to_nat n) l.
Proof.
  intros Hn. unfold py_slice, adjust_index. cbn [Z.ltb Z.compare].
  destruct (Z.ltb_spec n 0) as [Hneg|Hneg]; [lia|].
  replace (0 `min` Z.of_nat (length l)) with 0 by lia.
  rewrite Z.sub_0_r. change (Z.to_nat 0) with 0%nat. rewrite drop_0.
  destruct (Z.le_ge_cases n (Z.of_nat (length l))) as [Hle|Hge].
  - by rewrite Z.min_l by lia.
  - rewrite Z.min_r by lia. rewrite Nat2Z.id.
    rewrite !take_ge by lia. done.
Qed.

Lemma py_slice_drop_last {A} (n : Z) (l : list A) :
  n < 0 -> py_slice 0 n l = take (length l - Z.to_nat (- n)) l.
Proof.
  intros Hn. unfold py_slice, adjust_index. cbn [Z.ltb Z.compare].
  destruct (Z.ltb_spec n 0) as [Hneg|Hneg]; [|lia].
  replace (0 `min` Z.of_nat (length l)) with 0 by lia.
  rewrite Z.sub_0_r. change (Z.to_nat 0) with 0%nat. rewrite drop_0.
  f_equal. lia.
Qed.

Lemma py_slice_all {A} (n : Z) (l : list A) :
  Z.of_nat (length l) <= n -> py_slice 0 n l = l.
Proof.
  intros Hn. rewrite py_slice_prefix by lia. apply take_ge. lia.
Qed.

(** ** Selection *)

Lemma try_source_parsed (num_keep : Z) (f : FeedParserDict) :
  parse_err f = false ->
  try_source num_keep (Response f) =
    inr (backfill_author (feed_author_detail f) (keep_newest num_keep (entries f))).
Proof. intros H. unfold try_source. by rewrite H. Qed.

Lemma backfill_author_frame (feed_author : option AuthorDetail) (l : list Entry) :
  Forall2 same_but_author l (backfill_author feed_author l).
Proof.
  unfold backfill_author. destruct feed_author as [a|].
  - induction l as [|e l IH]; cbn [map]; constructor; [|done].
    destruct (e_author_detail e); by repeat split.
  - induction l; constructor; [by repeat split | done].
Qed.

(** C6 (as amended): a successfully parsed source contributes the entries
    selected from its sequence E, each at its position in E: all of E
    when [num_keep] is -1, and for [num_keep >= 0] exactly the first
    [num_keep] entries of E, which is all of E when E has no more than
    [num_keep] entries.  Nothing is re-sorted: the selection is a prefix of
    E, and the entry at position i of the contribution is the entry at
    position i of E up to its author. *)
Theorem keep_newest_selects (num_keep : Z) (f : FeedParserDict) :
  parse_err f = false ->
  exists newest kept,
    try_source num_keep (Response f) = inr kept /\
    newest = keep_newest num_keep (entries f) /\
    (num_keep = -1 -> newest = entries f) /\
    (0 <= num_keep -> newest = take (Z.to_nat num_keep) (entries f)) /\
    (Z.of_nat (length (entries f)) <= num_keep -> newest = entries f) /\
    newest `prefix_of` entries f /\
    Forall2 same_but_author newest kept.
Proof.
  intros Hok. eexists _, _. split; [by apply try_source_parsed|].
  split; [reflexivity|]. unfold keep_newest.
  repeat split.
  - by intros ->.
  - intros Hn. destruct (Z.eqb_spec num_keep (-1)); [lia|]. by apply py_slice_prefix.
  - intros Hn. destruct (Z.eqb_spec num_keep (-1)); [done|]. by apply py_slice_all.
  - destruct (Z.eqb_spec num_keep (-1)); [done|].
    destruct (Z.lt_ge_cases num_keep 0).
    + rewrite py_slice_drop_last by done. apply prefix_take.
    + rewrite py_slice_prefix by done. apply prefix_take.
  - apply backfill_author_frame.
Qed.

(** C10: a [num_keep] below -1 is sliced like any other negative bound: all
    the entries of the source are kept except the last [|num_keep|] of them
    (none is kept when the source has no more than that). *)
Theorem keep_newest_below_sentinel (num_keep : Z) (E : list Entry) :
  num_keep < -1 ->
  keep_newest num_keep E = take (length E - Z.to_nat (- num_keep)) E /\
  E = (keep_newest num_keep E ++ drop (length E - Z.to_nat (- num_keep)) E)%list /\
  length (keep_newest num_keep E) = (length E - Z.to_nat (- num_keep))%nat.
Proof.
  intros Hn. unfold keep_newest.
  destruct (Z.eqb_spec num_keep (-1)); [lia|].
  rewrite py_slice_drop_last by lia. split; [done|]. split.
  - by rewrite take_drop.
  - rewrite length_take. lia.
Qed.

(** At [num_keep = -2] a source of three entries contributes its first
    entry, which is not "its first [num_keep] entries": the selection is not
    a count for every value other than the sentinel. *)
Lemma keep_newest_negative_counterexample :
  keep_newest (-2) three_entries = [bare_entry "first"] /\
  ~ (forall (num_keep : Z) (E : list Entry),
       num_keep <> -1 -> keep_newest num_keep E = take (Z.to_nat num_keep) E).
Proof.
  split; [reflexivity|].
  intros H. specialize (H (-2) three_entries ltac:(lia)). discriminate H.
Qed.

Lemma keep_newest_selects_witness :
  parse_err (feed_of three_entries) = false /\
  exists newest kept,
    try_source 2 (Response (feed_of three_entries)) = inr kept /\
    newest = keep_newest 2 (entries (feed_of three_entries)) /\
    (2 = -1 -> newest = entries (feed_of three_entries)) /\
    (0 <= 2 -> newest = take (Z.to_nat 2) (entries (feed_of three_entries))) /\
    (Z.of_nat (length (entries (feed_of three_entries))) <= 2 ->
     newest = entries (feed_of three_entries)) /\
    newest `prefix_of` entries (feed_of three_entries) /\
    Forall2 same_but_author newest kept.
Proof.
  split; [reflexivity|].
  apply (keep_newest_selects 2 (feed_of three_entries)). reflexivity.
Defined.

Lemma keep_newest_below_sentinel_witness :
  -2 < -1 /\
  keep_newest (-2) three_entries =
    take (length three_entries - Z.to_nat (- -2)) three_entries /\
  three_entries =
    (keep_newest (-2) three_entries ++
     drop (length three_entries - Z.to_nat (- -2)) three_entries)%list /\
  length (keep_newest (-2) three_entries) =
    (length three_entries - Z.to_nat (- -2))%nat.
Proof.
  split; [lia|]. apply (keep_newest_below_sentinel (-2) three_entries). lia.
Defined.

(** ** Author backfill *)



(** ** Parse failures *)

Lemma parse_err_iff (f : FeedParserDict) :
  parse_err f = true <-> entries f = [] /\ bozo f = true.
Proof.
  unfold parse_err. rewrite andb_true_iff, Z.eqb_eq. split.
  - intros [Hlen Hbozo]. split; [|done].
    destruct (entries f); [done | cbn in Hlen; lia].
  - intros [-> Hbozo]. done.
Qed.

(** C5: the body of the [try] ends in a [ParseError] exactly when the parser
    reports no entry together with the bozo flag; the error is then stored
    under the URL of the source, which adds nothing to the merged entries.
    A source with no entry and no bozo flag changes neither the error map
    nor the merged entries. *)
Theorem parse_error_iff (num_keep : Z) (f : FeedParserDict) (url : string)
    (acc : list Entry * gmap string FCException) :
  ((exists msg, try_source num_keep (Response f) = inl (ParseError msg)) <->
   (entries f = [] /\ bozo f = true)) /\
  ((exists e, try_source num_keep (Response f) = inl e) <->
   (entries f = [] /\ bozo f = true)) /\
  (entries f = [] /\ bozo f = true ->
   exists msg, collect num_keep acc (url, Response f)
               = (acc.1, <[url := ParseError msg]> acc.2)) /\
  (entries f = [] -> bozo f = false ->
   collect num_keep acc (url, Response f) = acc).
Proof.
  pose proof (parse_err_iff f) as Hiff.
  unfold collect. cbn [fst snd]. unfold try_source.
  destruct (parse_err f) eqn:Herr.
  - assert (Hyes : entries f = [] /\ bozo f = true) by by apply Hiff.
    split; [split; [done | intros _; by eexists]|].
    split; [split; [done | intros _; by eexists]|].
    split; [intros _; by eexists|].
    intros _ Hb. destruct Hyes as [_ Hyes]. congruence.
  - assert (Hno : ~ (entries f = [] /\ bozo f = true)).
    { intros H. apply Hiff in H. congruence. }
    split; [split; [by intros [msg [=]] | done]|].
    split; [split; [by intros [msg [=]] | done]|].
    split; [done|].
    intros Hnil _. rewrite Hnil. unfold keep_newest.
    destruct (num_keep =? -1); [|replace (py_slice 0 num_keep []) with (@nil Entry)].
    + destruct (feed_author_detail f); cbn; rewrite app_nil_r; by destruct acc.
    + destruct (feed_author_detail f); cbn; rewrite app_nil_r; by destruct acc.
    + unfold py_slice. by rewrite drop_nil, take_nil.
Qed.

Lemma parse_error_iff_witness :
  (entries (feed_of []) = [] -> bozo (feed_of []) = false ->
   collect 3 ([bare_entry "first"], ∅) ("http://example.org/empty", Response (feed_of []))
   = ([bare_entry "first"], ∅)) /\
  collect 3 ([bare_entry "first"], ∅) ("http://example.org/empty", Response (feed_of []))
  = ([bare_entry "first"], ∅).
Proof.
  pose proof (parse_error_iff 3 (feed_of []) "http://example.org/empty"
                ([bare_entry "first"], ∅)) as (_ & _ & _ & Hempty).
  split; [exact Hempty | exact (Hempty eq_refl eq_refl)].
Defined.

(** ** Normalisation *)

Lemma mapM_Ok {A B} (f : A -> result B) (l : list A) (r : list B) :
  mapM f l = Ok r -> Forall2 (fun x y => f x = Ok y) l r.
Proof.
  revert r. induction l as [|x l IH]; intros r; cbn [mapM].
  - intros [= <-]. constructor.
  - destruct (f x) as [y|] eqn:Hx; [|done]. cbn.
    destruct (mapM f l) as [ys|]; [|done]. cbn.
    intros [= <-]. constructor; [done | by apply IH].
Qed.

Lemma mapM_total {A B} (f : A -> result B) (l : list A) :
  Forall (fun x => exists y, f x = Ok y) l -> exists r, mapM f l = Ok r.
Proof.
  induction 1 as [|x l [y Hy] _ [r Hr]]; cbn [mapM].
  - by eexists.
  - rewrite Hy. cbn. rewrite Hr. cbn. by eexists.
Qed.

Lemma datetime_new_fields (args : list Z) (d : datetime) :
  datetime_new args = Ok d -> args = datetime_fields d.
Proof.
  unfold datetime_new.
  destruct args as [|y [|mo [|d' [|h [|mi [|s [|]]]]]]]; try done.
  repeat (match goal with |- context [if ?b then _ else _] => destruct b end;
          try done).
  by intros [= <-].
Qed.

Lemma datetime_new_valid (y mo d h mi s : Z) :
  1 <= y <= 9999 -> 1 <= mo <= 12 -> 1 <= d <= days_in_month y mo ->
  0 <= h <= 23 -> 0 <= mi <= 59 -> 0 <= s <= 59 ->
  datetime_new [y; mo; d; h; mi; s]
  = Ok {| year := y; month := mo; day := d; hour := h; minute := mi; second := s |}.
Proof.
  intros Hy Hmo Hd Hh Hmi Hs. unfold datetime_new.
  repeat (match goal with
          | |- context [negb ((?a <=? ?x) && (?x <=? ?b))] =>
              replace (negb ((a <=? x) && (x <=? b))) with false
                by (symmetry; apply negb_false_iff, andb_true_iff;
                    split; apply Z.leb_le; lia)
          end).
  done.
Qed.

Lemma time_struct_to_datetime_six (y mo d h mi s : Z) (rest : list Z) :
  time_struct_to_datetime (y :: mo :: d :: h :: mi :: s :: rest)
  = datetime_new [y; mo; d; h; mi; Z.min s 59].
Proof.
  unfold time_struct_to_datetime. cbn [lookup list_lookup].
  rewrite py_slice_prefix by lia. done.
Qed.

Lemma set_date_other (out k : string) (tp : option (list Z))
    (m m' : gmap string PyVal) :
  set_date out tp m = Ok m' -> k <> out -> m' !! k = m !! k.
Proof.
  unfold set_date. destruct tp as [[|x tp]|]; try by intros [= <-].
  destruct (time_struct_to_datetime (x :: tp)); [|done]. cbn.
  intros [= <-] Hk. by rewrite lookup_insert_ne.
Qed.

Lemma set_date_self (out : string) (tp : option (list Z))
    (m m' : gmap string PyVal) :
  set_date out tp m = Ok m' -> m !! out = None ->
  date_normalised tp (m' !! out).
Proof.
  unfold set_date, date_normalised.
  destruct tp as [[|y tp]|]; try by intros [= <-].
  destruct (time_struct_to_datetime (y :: tp)) as [dt|] eqn:Hdt; [|done]. cbn.
  intros [= <-] _. rewrite lookup_insert_eq.
  destruct tp as [|mo [|d [|h [|mi [|s rest]]]]]; try done.
  rewrite time_struct_to_datetime_six in Hdt.
  apply datetime_new_fields in Hdt. destruct dt. cbn in Hdt.
  by injection Hdt as <- <- <- <- <- <-.
Qed.

Lemma set_date_valid (out : string) (tp : option (list Z))
    (m : gmap string PyVal) :
  date_ok tp -> exists m', set_date out tp m = Ok m'.
Proof.
  unfold date_ok, set_date. destruct tp as [[|x tp]|]; try by eexists.
  intros (y & mo & d & h & mi & s & rest & -> & Hy & Hmo & Hd & Hh & Hmi & Hs).
  rewrite time_struct_to_datetime_six.
  rewrite datetime_new_valid by lia. cbn. by eexists.
Qed.

Lemma make_enclosure_complete (enc : EnclosureDict) :
  complete_enclosure enc -> exists x, make_enclosure enc = Ok x.
Proof.
  intros ([h Hh] & [l Hl] & [t Ht]). unfold make_enclosure.
  rewrite Hh, Hl, Ht. cbn. by eexists.
Qed.

Lemma extract_entry_normalised (e : Entry) (m : gmap string PyVal) :
  extract_entry e = Ok m -> normalised e m.
Proof.
  unfold extract_entry.
  set (m0 := match e_author_detail e with
             | Some a => _
             | None => _
             end).
  destruct (set_date "pubdate" (e_published_parsed e) m0) as [m1|] eqn:H1;
    [|done]. cbn.
  destruct (set_date "updateddate" (e_updated_parsed e) m1) as [m2|] eqn:H2;
    [|done]. cbn.
  set (m3 := match e_tags e with
             | Some ts => _
             | None => _
             end).
  intros Hm.
  assert (Hkeep : forall k : string,
             k <> "pubdate" -> k <> "updateddate" -> k <> "comments" ->
             k <> "unique_id" -> k <> "item_copyright" ->
             k <> "categories" -> k <> "enclosures" -> m !! k = m0 !! k).
  { intros k ? ? ? ? ? ? ?.
    assert (m3 !! k = m0 !! k) as <-.
    { subst m3. rewrite <- (set_date_other _ k _ _ _ H1) by done.
      rewrite <- (set_date_other _ k _ _ _ H2) by done.
      destruct (e_tags e); by rewrite !lookup_insert_ne. }
    destruct (e_enclosures e) as [encs|]; [|by injection Hm as <-].
    destruct (mapM make_enclosure encs); [|done]. cbn in Hm.
    injection Hm as <-. by rewrite lookup_insert_ne. }
  assert (Hpub : m !! "pubdate" = m1 !! "pubdate").
  { assert (m3 !! "pubdate" = m1 !! "pubdate") as <-.
    { subst m3. rewrite <- (set_date_other _ "pubdate" _ _ _ H2) by done.
      destruct (e_tags e); by rewrite !lookup_insert_ne. }
    destruct (e_enclosures e) as [encs|]; [|by injection Hm as <-].
    destruct (mapM make_enclosure encs); [|done]. cbn in Hm.
    injection Hm as <-. by rewrite lookup_insert_ne. }
  assert (Hupd : m !! "updateddate" = m2 !! "updateddate").
  { assert (m3 !! "updateddate" = m2 !! "updateddate") as <-.
    { subst m3. destruct (e_tags e); by rewrite !lookup_insert_ne. }
    destruct (e_enclosures e) as [encs|]; [|by injection Hm as <-].
    destruct (mapM make_enclosure encs); [|done]. cbn in Hm.
    injection Hm as <-. by rewrite lookup_insert_ne. }
  assert (Hnopub : m0 !! "pubdate" = None).
  { subst m0. destruct (e_author_detail e); by rewrite !lookup_insert_ne. }
  assert (Hnoupd : m1 !! "updateddate" = None).
  { rewrite (set_date_other _ "updateddate" _ _ _ H1) by done.
    subst m0. destruct (e_author_detail e); by rewrite !lookup_insert_ne. }
  unfold normalised. rewrite Hpub, Hupd, !Hkeep by done.
  split; [subst m0; by destruct (e_author_detail e)|].
  split; [subst m0; by destruct (e_author_detail e)|].
  split; [subst m0; by destruct (e_author_detail e)|].
  split; [subst m0; by destruct (e_author_detail e)|].
  split; [by eapply set_date_self | by eapply set_date_self].
Qed.

Lemma extract_entry_total (e : Entry) :
  normalisable e -> exists m, extract_entry e = Ok m.
Proof.
  intros (Hpub & Hupd & Henc). unfold extract_entry.
  set (m0 := match e_author_detail e with
             | Some a => _
             | None => _
             end).
  destruct (set_date_valid "pubdate" _ m0 Hpub) as [m1 ->]. cbn.
  destruct (set_date_valid "updateddate" _ m1 Hupd) as [m2 ->]. cbn.
  destruct (e_enclosures e) as [encs|]; [|by eexists].
  destruct (mapM_total make_enclosure encs) as [r ->]; [|cbn; by eexists].
  eapply Forall_impl; [exact Henc|]. apply make_enclosure_complete.
Qed.


Lemma leap_entry_normalisable : Forall normalisable [leap_entry].
Proof.
  constructor; [|constructor]. split; [|done].
  exists 2016, 12, 31, 23, 59, 60, [5; 366; 0].
  split; [reflexivity|]. vm_compute. intuition discriminate.
Qed.


(** The record of [leap_entry]: the leap second is stored as second 59. *)
Example extract_meta_leap_second :
  (fun m : gmap string PyVal => (m !! "pubdate", m !! "author_name", m !! "description"))
    <$> default [] (match extract_meta [leap_entry] with
                    | Ok l => Some l
                    | Raise _ => None
                    end)
  = [(Some (VDateTime {| year := 2016; month := 12; day := 31; hour := 23;
                         minute := 59; second := 59 |}),
      Some (VStr "Alice"), Some (VStr EmptyString))].
Proof. vm_compute. reflexivity. Qed.

(** C9 at an entry whose enclosure has no length: reading [enc.length]
    raises, and [extract_meta] returns nothing. *)
Theorem extract_meta_raises_on_bare_enclosure :
  extract_meta [podcast_entry] = Raise (AttributeError "length") /\
  ~ exists mixed, extract_meta [podcast_entry] = Ok mixed.
Proof.
  assert (H : extract_meta [podcast_entry] = Raise (AttributeError "length"))
    by (vm_compute; reflexivity).
  split; [exact H|]. intros [mixed Hmixed]. congruence.
Qed.

(** ** The merge *)

Lemma ltb_asym (a b : string) : String.ltb a b = true -> String.ltb b a = false.
Proof.
  unfold String.ltb. rewrite (String.compare_antisym a b).
  by destruct (String.compare b a).
Qed.

Lemma insert_desc_perm (x : string * Entry) (l : list (string * Entry)) :
  insert_desc x l ≡ₚ x :: l.
Proof.
  induction l as [|y l IH]; cbn [insert_desc]; [done|].
  destruct (String.ltb x.1 y.1); [|done].
  rewrite IH. apply Permutation_swap.
Qed.

Lemma sort_desc_perm (l : list (string * Entry)) : sort_desc l ≡ₚ l.
Proof.
  induction l as [|x l IH]; cbn; [done|].
  fold (sort_desc l). by rewrite insert_desc_perm, IH.
Qed.

Lemma insert_desc_sorted (x : string * Entry) (l : list (string * Entry)) :
  Sorted key_ge l -> Sorted key_ge (insert_desc x l).
Proof.
  induction 1 as [|y l Hl IH Hhd]; cbn [insert_desc].
  - by repeat constructor.
  - destruct (String.ltb x.1 y.1) eqn:Hxy.
    + constructor; [done|].
      destruct Hhd as [|z l Hyz]; cbn [insert_desc].
      * constructor. by apply ltb_asym.
      * destruct (String.ltb x.1 z.1); constructor; [done|].
        by apply ltb_asym.
    + constructor; [by constructor | by constructor].
Qed.

Lemma sort_desc_sorted (l : list (string * Entry)) : Sorted key_ge (sort_desc l).
Proof.
  induction l as [|x l IH]; cbn; [constructor|].
  by apply insert_desc_sorted.
Qed.

Lemma sort_key_Ok (e : Entry) (k : string) :
  sort_key e = Ok k <-> e_published e = Some k.
Proof. unfold sort_key. destruct (e_published e); split; congruence. Qed.

(** What the sort does when it returns: the same entries, by non-increasing
    ['published'] text. *)
Lemma sort_by_published_sorted (l l' : list Entry) :
  sort_by_published l = Ok l' -> l' ≡ₚ l /\ Sorted published_ge l'.
Proof.
  unfold sort_by_published.
  destruct (mapM sort_key l) as [keys|] eqn:Hkeys; [|done]. cbn.
  intros [= <-]. apply mapM_Ok in Hkeys.
  assert (Hlen : length l = length keys) by by eapply Forall2_length.
  assert (Hzip : Forall (fun p => e_published p.2 = Some p.1) (zip keys l)).
  { clear Hlen. induction Hkeys as [|e k l keys He _ IH]; cbn; constructor;
      [by apply sort_key_Ok | done]. }
  split.
  - rewrite sort_desc_perm. rewrite snd_zip by lia. done.
  - rewrite <- (sort_desc_perm (zip keys l)) in Hzip.
    pose proof (sort_desc_sorted (zip keys l)) as Hsorted.
    induction Hsorted as [|p ps Hps IH Hhd]; cbn; [constructor|].
    apply Forall_cons in Hzip as [Hp Hrest].
    constructor; [by apply IH|].
    destruct Hhd as [|q ps Hpq]; cbn; constructor.
    apply Forall_cons in Hrest as [Hq _]. by exists p.1, q.1.
Qed.

(** The sort returns exactly when every entry has a ['published'] key. *)
Lemma sort_by_published_total (l : list Entry) :
  Forall (fun e => is_Some (e_published e)) l ->
  exists l', sort_by_published l = Ok l'.
Proof.
  intros Hall. unfold sort_by_published.
  destruct (mapM_total sort_key l) as [keys ->]; [|cbn; by eexists].
  eapply Forall_impl; [exact Hall|].
  intros e [k Hk]. exists k. by apply sort_key_Ok.
Qed.

Lemma sort_by_published_raises (l : list Entry) :
  Exists (fun e => e_published e = None) l ->
  sort_by_published l = Raise (KeyError "published").
Proof.
  intros Hex. unfold sort_by_published.
  assert (mapM sort_key l = Raise (KeyError "published")) as ->; [|done].
  induction l as [|e l IH]; [by apply Exists_nil in Hex|].
  cbn [mapM]. destruct (sort_key e) as [k|err] eqn:Hk; cbn.
  - apply Exists_cons in Hex as [Hex|Hex]; [|by rewrite IH].
    apply sort_key_Ok in Hk. congruence.
  - unfold sort_key in Hk. destruct (e_published e); congruence.
Qed.

(** C2 on an RSS feed of two items: the merged list is in the order of the
    ['published'] texts, "Tue, ..." before "Mon, ...", so the item of 2023
    comes before the item of 2024. *)
Theorem mixed_entries_not_chronological :
  let r := mixed_entries
             [("http://example.org/rss",
               Response (feed_of [january_2024; january_2023]))]
             (fresh ["http://example.org/rss"]) in
  titles_and_dates r.1
  = Ok [(Some (VStr "older"),
         Some (VDateTime {| year := 2023; month := 1; day := 3;
                            hour := 10; minute := 0; second := 0 |}));
        (Some (VStr "newer"),
         Some (VDateTime {| year := 2024; month := 1; day := 1;
                            hour := 10; minute := 0; second := 0 |}))] /\
  exists a b, r.1 = Ok [a; b] /\ ~ pubdate_ge a b.
Proof.
  intros r.
  assert (Hview : titles_and_dates r.1 = Ok [(Some (VStr "older"),
         Some (VDateTime {| year := 2023; month := 1; day := 3;
                            hour := 10; minute := 0; second := 0 |}));
        (Some (VStr "newer"),
         Some (VDateTime {| year := 2024; month := 1; day := 1;
                            hour := 10; minute := 0; second := 0 |}))])
    by (vm_compute; reflexivity).
  split; [exact Hview|].
  destruct r.1 as [es|]; [|discriminate Hview].
  destruct es as [|a [|b [|c es]]]; try discriminate Hview.
  injection Hview as _ Ha _ Hb.
  exists a, b. split; [reflexivity|].
  intros (da & db & Ha' & Hb' & Hle).
  rewrite Ha in Ha'. rewrite Hb in Hb'.
  injection Ha' as <-. injection Hb' as <-. discriminate Hle.
Qed.

(** ** The fetch loop *)

Lemma collect_entries (num_keep : Z) (completed : list (string * FutureResult))
    (acc : list Entry * gmap string FCException) :
  (fold_left (collect num_keep) completed acc).1
  = (acc.1 ++ concat (contribution num_keep <$> completed))%list.
Proof.
  revert acc. induction completed as [|fut completed IH]; intros acc; cbn.
  - by rewrite app_nil_r.
  - rewrite IH. unfold collect, contribution.
    destruct (try_source num_keep fut.2); cbn; [done|].
    by rewrite app_assoc.
Qed.

Lemma collect_errors (num_keep : Z) (completed : list (string * FutureResult))
    (acc : list Entry * gmap string FCException) (u : string) :
  is_Some ((fold_left (collect num_keep) completed acc).2 !! u) <->
  is_Some (acc.2 !! u) \/
  exists fut, fut ∈ completed /\ fut.1 = u /\ failing num_keep fut.
Proof.
  revert acc. induction completed as [|fut completed IH]; intros acc; cbn.
  - split; [by left|]. intros [H|(fut & Hin & _)]; [done|].
    by apply elem_of_nil in Hin.
  - rewrite IH. unfold collect at 1.
    destruct (try_source num_keep fut.2) as [e|newest] eqn:Htry; cbn.
    + rewrite lookup_insert_is_Some. split.
      * intros [[Hu|[_ Hacc]]|(fut' & Hin & Hu & Hfail)].
        -- right. exists fut. split; [by left|]. split; [done|]. by exists e.
        -- by left.
        -- right. exists fut'. split; [by right | done].
      * intros [Hacc|(fut' & Hin & Hu & Hfail)].
        -- left. destruct (decide (fut.1 = u)); [by left | by right].
        -- apply elem_of_cons in Hin as [->|Hin]; [by left; left|].
           right. by exists fut'.
    + split.
      * intros [Hacc|(fut' & Hin & Hu & Hfail)]; [by left|].
        right. exists fut'. split; [by right | done].
      * intros [Hacc|(fut' & Hin & Hu & Hfail)]; [by left|].
        apply elem_of_cons in Hin as [->|Hin].
        -- destruct Hfail as [e He]. congruence.
        -- right. by exists fut'.
Qed.

(** Per-source isolation in the loop: the URLs in the error map are those of
    the failing futures, a failing future adds no entry, and the entries
    collected are those of the other futures, in completion order. *)
Lemma collect_all_isolates (num_keep : Z)
    (completed : list (string * FutureResult)) :
  (forall u, is_Some ((collect_all num_keep completed).2 !! u) <->
             exists fut, fut ∈ completed /\ fut.1 = u /\ failing num_keep fut) /\
  (collect_all num_keep completed).1
    = concat (contribution num_keep <$> completed) /\
  (forall fut, failing num_keep fut -> contribution num_keep fut = []).
Proof.
  unfold collect_all. split; [|split].
  - intros u. rewrite collect_errors. cbn. rewrite lookup_empty. split.
    + intros [[x Hx]|H]; [done | exact H].
    + intros H. by right.
  - by rewrite collect_entries.
  - intros fut [e He]. unfold contribution. by rewrite He.
Qed.

Lemma fetch_entries_executor (completed : list (string * FutureResult))
    (p : Process) :
  0 < max_threads (self p) ->
  __fetch_entries completed p = fetch_with_executor completed p.
Proof.
  intros Hpool. unfold __fetch_entries.
  destruct (Z.leb_spec (max_threads (self p)) 0); [lia | done].
Qed.

Lemma fetch_entries_no_executor (completed : list (string * FutureResult))
    (p : Process) :
  max_threads (self p) <= 0 ->
  __fetch_entries completed p
  = (Raise (ValueError "max_workers must be greater than 0"),
     {| self := with_error_urls ∅ (self p); submitted := submitted p |}).
Proof.
  intros Hpool. unfold __fetch_entries.
  destruct (Z.leb_spec (max_threads (self p)) 0); [done | lia].
Qed.

(** An instance built with [max_threads=0]: the first access raises the
    [ValueError] of the executor and no fetch is submitted. *)
Example mixed_entries_without_workers :
  let p := {| self := __init__ "Title" EmptyString EmptyString
                        ["http://example.org/rss"] 3 0 100;
              submitted := [] |} in
  let r := mixed_entries
             [("http://example.org/rss", Response (feed_of [january_2024]))] p in
  r.1 = Raise (ValueError "max_workers must be greater than 0") /\
  submitted r.2 = [] /\ _mixed_entries (self r.2) = [].
Proof. intros p r. repeat split; vm_compute; reflexivity. Qed.

Lemma fetch_entries_submitted (completed : list (string * FutureResult))
    (p : Process) :
  submitted (__fetch_entries completed p).2
  = (submitted p ++ if max_threads (self p) <=? 0 then [] else _feeds (self p))%list.
Proof.
  unfold __fetch_entries, fetch_with_executor.
  destruct (max_threads (self p) <=? 0); [cbn; by rewrite app_nil_r|].
  by destruct (sort_by_published _ ≫= _).
Qed.

(** When every source fails the run ends with an empty merged list and
    every configured URL in the error map. *)
Lemma fetch_entries_all_failing (completed : list (string * FutureResult))
    (p : Process) :
  0 < max_threads (self p) ->
  Forall (failing (_num_keep (self p))) completed ->
  completed.*1 ≡ₚ _feeds (self p) ->
  exists p', __fetch_entries completed p = (Ok (), p') /\
             _mixed_entries (self p') = [] /\
             forall u, u ∈ _feeds (self p) -> is_Some (error_urls p' !! u).
Proof.
  intros Hpool Hfail Hperm. rewrite fetch_entries_executor by done.
  unfold fetch_with_executor.
  destruct (collect_all_isolates (_num_keep (self p)) completed)
    as (Herrs & Hentries & Hnone).
  assert (Hnil : (collect_all (_num_keep (self p)) completed).1 = []).
  { rewrite Hentries. clear -Hfail Hnone.
    induction Hfail as [|fut l Hfut _ IH]; cbn; [done|].
    by rewrite (Hnone fut Hfut), IH. }
  rewrite Hnil. cbn. eexists. split; [reflexivity|]. split; [done|].
  intros u Hu. unfold error_urls. cbn. apply Herrs.
  rewrite <- Hperm in Hu. apply list_elem_of_fmap in Hu as (fut & -> & Hin).
  exists fut. split; [done|]. split; [done|].
  by eapply Forall_forall in Hfail.
Qed.

(** The run completes when every collected entry has a ['published'] key
    and is accepted by [extract_meta]. *)
Lemma fetch_entries_completes (completed : list (string * FutureResult))
    (p : Process) :
  0 < max_threads (self p) ->
  Forall (fun e => is_Some (e_published e) /\ normalisable e)
    (collect_all (_num_keep (self p)) completed).1 ->
  exists p', __fetch_entries completed p = (Ok (), p').
Proof.
  intros Hpool Hall. rewrite fetch_entries_executor by done.
  unfold fetch_with_executor.
  destruct (sort_by_published_total (collect_all (_num_keep (self p)) completed).1)
    as [sorted Hsorted].
  { eapply Forall_impl; [exact Hall|]. by intros e [He _]. }
  rewrite Hsorted. cbn.
  apply sort_by_published_sorted in Hsorted as [Hperm _].
  unfold extract_meta.
  destruct (mapM_total extract_entry sorted) as [mixed ->]; [|by eexists].
  rewrite Hperm. eapply Forall_impl; [exact Hall|].
  intros e [_ He]. by apply extract_entry_total.
Qed.

(** C1 at a single source that parses to one undated item: nothing failed,
    the error map is empty, and the access to [mixed_entries] raises the
    [KeyError] of the sort key instead of returning. *)
Theorem mixed_entries_raises_on_undated_entry :
  let r := mixed_entries
             [("http://example.org/rss",
               Response (feed_of [bare_entry "undated"]))]
             (fresh ["http://example.org/rss"]) in
  r.1 = Raise (KeyError "published") /\
  error_urls r.2 !! "http://example.org/rss" = None /\
  _mixed_entries (self r.2) = [].
Proof.
  intros r. split; [vm_compute; reflexivity|].
  split; vm_compute; reflexivity.
Qed.

(** ** Laziness and invalidation *)

Lemma mixed_entries_cached (completed : list (string * FutureResult))
    (p : Process) :
  _mixed_entries (self p) <> [] ->
  mixed_entries completed p = (Ok (_mixed_entries (self p)), p).
Proof.
  intros Hne. unfold mixed_entries.
  destruct (_mixed_entries (self p)) as [|m l]; [done|].
  cbn [length]. destruct (Z.ltb_spec (Z.of_nat (S (length l))) 1); [lia | done].
Qed.

Lemma mixed_entries_empty (completed : list (string * FutureResult))
    (p : Process) :
  _mixed_entries (self p) = [] -> runs_pipeline completed p.
Proof.
  intros Hnil. unfold runs_pipeline.
  assert (Hrun : mixed_entries completed p =
            match __fetch_entries completed p with
            | (Ok _, p') => (Ok (_mixed_entries (self p')), p')
            | (Raise e, p') => (Raise e, p')
            end).
  { unfold mixed_entries. by rewrite Hnil. }
  split; [exact Hrun|]. rewrite Hrun. split.
  - intros Hpool.
    pose proof (fetch_entries_submitted completed p) as Hsub.
    destruct (Z.leb_spec (max_threads (self p)) 0); [lia|].
    by destruct (__fetch_entries completed p) as [[[]|e] p'].
  - intros Hpool. by rewrite fetch_entries_no_executor.
Qed.

Lemma mixed_entries_stored (completed : list (string * FutureResult))
    (p p' : Process) (es : list (gmap string PyVal)) :
  mixed_entries completed p = (Ok es, p') -> _mixed_entries (self p') = es.
Proof.
  unfold mixed_entries.
  destruct (Z.of_nat (length (_mixed_entries (self p))) <? 1).
  - destruct (__fetch_entries completed p) as [[[]|e] q]; [|done].
    by intros [= <- <-].
  - by intros [= <- <-].
Qed.

(** C4: assigning [feeds] or [num_keep] empties the stored list without
    submitting any fetch, so that the next access to [mixed_entries] runs
    the pipeline (over the new feeds, with the new [num_keep]); assigning
    [title] changes the title alone: the stored list stays, and so does
    everything else, and nothing is fetched. *)
Theorem setters_invalidate (p : Process) (feeds : list string) (n : Z)
    (t : string) (completed : list (string * FutureResult)) :
  (_mixed_entries (self (set_feeds feeds p)) = [] /\
   _feeds (self (set_feeds feeds p)) = py_slice 0 (max_feeds (self p)) feeds /\
   submitted (set_feeds feeds p) = submitted p /\
   runs_pipeline completed (set_feeds feeds p)) /\
  (_mixed_entries (self (set_num_keep n p)) = [] /\
   _num_keep (self (set_num_keep n p)) = n /\
   submitted (set_num_keep n p) = submitted p /\
   runs_pipeline completed (set_num_keep n p)) /\
  (_mixed_entries (self (set_title t p)) = _mixed_entries (self p) /\
   submitted (set_title t p) = submitted p /\
   title (self (set_title t p)) = t /\
   _feeds (self (set_title t p)) = _feeds (self p) /\
   _num_keep (self (set_title t p)) = _num_keep (self p) /\
   _error_urls (self (set_title t p)) = _error_urls (self p) /\
   (_mixed_entries (self p) <> [] ->
    mixed_entries completed (set_title t p)
    = (Ok (_mixed_entries (self p)), set_title t p))).
Proof.
  split; [|split].
  - split; [done|]. split; [done|]. split; [done|].
    by apply mixed_entries_empty.
  - split; [done|]. split; [done|]. split; [done|].
    by apply mixed_entries_empty.
  - repeat (split; [done|]).
    intros Hne. by apply (mixed_entries_cached completed (set_title t p)).
Qed.

(** An instance that has fetched and stored one item: assigning [feeds]
    empties what is stored and fetches nothing, the next access submits the
    new feed, and assigning [title] keeps what is stored. *)
Lemma setters_invalidate_witness :
  let p := (mixed_entries
              [("http://example.org/rss", Response (feed_of [january_2024]))]
              (fresh ["http://example.org/rss"])).2 in
  let q := set_feeds ["http://example.org/atom"] p in
  _mixed_entries (self p) <> [] /\
  0 < max_threads (self q) /\
  _mixed_entries (self q) = [] /\
  submitted q = submitted p /\
  submitted (mixed_entries [("http://example.org/atom", Raised "timed out")] q).2
  = (submitted q ++ _feeds (self q))%list /\
  mixed_entries [("http://example.org/atom", Raised "timed out")]
    (set_title "Mixed" p)
  = (Ok (_mixed_entries (self p)), set_title "Mixed" p).
Proof.
  intros p q.
  assert (Hne : _mixed_entries (self p) <> []).
  { intros Hnil. apply (f_equal length) in Hnil.
    vm_compute in Hnil. discriminate Hnil. }
  assert (Hpool : 0 < max_threads (self q)) by (vm_compute; reflexivity).
  destruct (setters_invalidate p ["http://example.org/atom"] 3 "Mixed"
              [("http://example.org/atom", Raised "timed out")])
    as ((Hempty & _ & Hsub & _ & Hrun & _) & _ & Htitle).
  split; [exact Hne|]. split; [exact Hpool|]. split; [exact Hempty|].
  split; [exact Hsub|]. split; [exact (Hrun Hpool)|].
  exact (proj2 (proj2 (proj2 (proj2 (proj2 (proj2 Htitle))))) Hne).
Defined.

Section Memo.
Variable writeString :
  GenCls -> string -> string -> string -> list (gmap string PyVal) -> string.
Variable json_dumps : list (gmap string PyVal) -> string.

(** C3 (as amended): the stored list doubles as the state.  What an access
    returns is what is stored.  While the stored list is empty, whether
    nothing was fetched yet or the last run produced nothing, an access runs
    the pipeline: with a positive [max_threads] it submits one fetch per
    configured URL, and otherwise it raises the [ValueError] of the executor
    and submits nothing.  Once the stored list is not empty, every access to
    [mixed_entries] and every render operation works on it and leaves the
    object and the submitted fetches as they are, whatever the sources would
    deliver by then. *)
Theorem mixed_entries_memoised
    (completed : list (string * FutureResult)) (p : Process) :
  (forall es p', mixed_entries completed p = (Ok es, p') ->
                 _mixed_entries (self p') = es) /\
  (_mixed_entries (self p) = [] -> runs_pipeline completed p) /\
  (_mixed_entries (self p) <> [] ->
   mixed_entries completed p = (Ok (_mixed_entries (self p)), p) /\
   atom_feed writeString completed p
   = (Ok (writeString Atom1Feed (title (self p)) (link (self p))
            (desc (self p)) (_mixed_entries (self p))), p) /\
   rss_feed writeString completed p
   = (Ok (writeString Rss201rev2Feed (title (self p)) (link (self p))
            (desc (self p)) (_mixed_entries (self p))), p) /\
   json_feed json_dumps completed p
   = (Ok (json_dumps (_mixed_entries (self p))), p)).
Proof.
  split; [intros es p'; apply mixed_entries_stored|].
  split; [by apply mixed_entries_empty|].
  intros Hne.
  pose proof (mixed_entries_cached completed p Hne) as Hagain.
  split; [done|].
  unfold atom_feed, rss_feed, generate_feed, json_feed.
  by rewrite Hagain.
Qed.
End Memo.

(** The first access of a fresh instance submits its feed; the process
    after it has one dated item stored, and later accesses return the
    stored item even when the source has gone. *)
Lemma mixed_entries_memoised_witness :
  let p0 := fresh ["http://example.org/rss"] in
  let p := (mixed_entries
              [("http://example.org/rss", Response (feed_of [january_2024]))]
              p0).2 in
  (_mixed_entries (self p0) = [] /\ 0 < max_threads (self p0) /\
   submitted p = (submitted p0 ++ _feeds (self p0))%list) /\
  _mixed_entries (self p) <> [] /\
  mixed_entries [("http://example.org/rss", Raised "timed out")] p
  = (Ok (_mixed_entries (self p)), p).
Proof.
  intros p0 p.
  assert (Hne : _mixed_entries (self p) <> []).
  { intros Hnil. apply (f_equal length) in Hnil.
    vm_compute in Hnil. discriminate Hnil. }
  split.
  - destruct (mixed_entries_memoised (fun _ _ _ _ _ => EmptyString)
                (fun _ => EmptyString)
                [("http://example.org/rss", Response (feed_of [january_2024]))]
                p0) as (_ & Hrun & _).
    destruct (Hrun eq_refl) as (_ & Hsub & _).
    split; [reflexivity|]. split; [reflexivity|]. exact (Hsub eq_refl).
  - split; [exact Hne|].
    destruct (mixed_entries_memoised (fun _ _ _ _ _ => EmptyString)
                (fun _ => EmptyString)
                [("http://example.org/rss", Raised "timed out")] p)
      as (_ & _ & Hmemo).
    exact (proj1 (Hmemo Hne)).
Defined.

(** C3 as stated fails when a run produces nothing: after an access during
    which the only source timed out, the result is the empty list, and the
    next access fetches again, and returns another result when the source
    answers. *)
Lemma mixed_entries_refetches_empty_result :
  let r1 := mixed_entries [("http://example.org/rss", Raised "timed out")]
              (fresh ["http://example.org/rss"]) in
  let r2 := mixed_entries
              [("http://example.org/rss", Response (feed_of [january_2024]))]
              r1.2 in
  r1.1 = Ok [] /\
  submitted r1.2 = ["http://example.org/rss"] /\
  error_urls r1.2 !! "http://example.org/rss"
  = Some (RequestException "timed out") /\
  titles_and_dates r2.1
  = Ok [(Some (VStr "newer"),
         Some (VDateTime {| year := 2024; month := 1; day := 1;
                            hour := 10; minute := 0; second := 0 |}))] /\
  r2.1 <> r1.1 /\
  submitted r2.2 = ["http://example.org/rss"; "http://example.org/rss"].
Proof.
  intros r1 r2.
  assert (H1 : r1.1 = Ok []) by (vm_compute; reflexivity).
  assert (H2 : titles_and_dates r2.1
               = Ok [(Some (VStr "newer"),
                      Some (VDateTime {| year := 2024; month := 1; day := 1;
                                         hour := 10; minute := 0; second := 0 |}))])
    by (vm_compute; reflexivity).
  split; [exact H1|]. split; [vm_compute; reflexivity|].
  split; [vm_compute; reflexivity|]. split; [exact H2|].
  split; [|vm_compute; reflexivity].
  intros Heq. rewrite Heq, H1 in H2. discriminate H2.
Qed.

(** * Further properties of the pipeline *)

(** ** The error map of a run *)

Lemma collect_error_lookup (num_keep : Z)
    (completed : list (string * FutureResult))
    (acc : list Entry * gmap string FCException) (u : string) :
  (fold_left (collect num_keep) completed acc).2 !! u
  = match last (errors_for num_keep u completed) with
    | Some e => Some e
    | None => acc.2 !! u
    end.
Proof.
  revert acc. induction completed as [|fut completed IH]; intros acc; [done|].
  cbn [fold_left]. rewrite IH. unfold errors_for. cbn [omap list_omap].
  fold (errors_for num_keep u completed).
  unfold collect at 1.
  destruct (decide (fut.1 = u)) as [Heq|Hne].
  - destruct (try_source num_keep fut.2) as [e|newest]; cbn; [|done].
    rewrite last_cons.
    destruct (last (errors_for num_keep u completed)); [done|].
    by rewrite Heq, lookup_insert_eq.
  - destruct (last (errors_for num_keep u completed)); [done|].
    destruct (try_source num_keep fut.2) as [e|newest]; cbn; [|done].
    by rewrite lookup_insert_ne.
Qed.

Lemma executor_error_urls (completed : list (string * FutureResult))
    (p : Process) (u : string) :
  error_urls (fetch_with_executor completed p).2 !! u
  = last (errors_for (_num_keep (self p)) u completed).
Proof.
  assert (Hmap : error_urls (fetch_with_executor completed p).2
                 = (collect_all (_num_keep (self p)) completed).2).
  { unfold fetch_with_executor, error_urls.
    by destruct (sort_by_published _ ≫= _). }
  rewrite Hmap. unfold collect_all. rewrite collect_error_lookup.
  cbn. rewrite lookup_empty.
  by destruct (last (errors_for (_num_keep (self p)) u completed)).
Qed.

Lemma executor_submitted (completed : list (string * FutureResult))
    (p : Process) :
  submitted (fetch_with_executor completed p).2
  = (submitted p ++ _feeds (self p))%list.
Proof.
  unfold fetch_with_executor. by destruct (sort_by_published _ ≫= _).
Qed.

(** X1: [error_urls] is rebuilt by every run.  After a call of
    [__fetch_entries] with a positive [max_threads], whether it returned or
    raised, the error stored under a URL is the one caught for the last
    completed future of that URL that failed, and the URL is absent when
    none of its futures failed; after a call with a [max_threads] that is
    not positive, which the executor refuses, the map is empty.  What the
    map held before the run plays no part. *)
Theorem fetch_entries_error_urls (completed : list (string * FutureResult))
    (p : Process) (u : string) :
  (0 < max_threads (self p) ->
   error_urls (__fetch_entries completed p).2 !! u
   = last (errors_for (_num_keep (self p)) u completed)) /\
  (max_threads (self p) <= 0 ->
   error_urls (__fetch_entries completed p).2 !! u = None).
Proof.
  split; intros Hpool.
  - rewrite fetch_entries_executor by done. apply executor_error_urls.
  - rewrite fetch_entries_no_executor by done. apply lookup_empty.
Qed.

Lemma fetch_entries_error_urls_witness :
  0 < max_threads (self (fresh ["http://example.org/rss"])) /\
  error_urls (__fetch_entries [("http://example.org/rss", Raised "timed out")]
                (fresh ["http://example.org/rss"])).2
    !! "http://example.org/rss"
  = Some (RequestException "timed out").
Proof.
  split; [reflexivity|].
  exact (proj1 (fetch_entries_error_urls
                  [("http://example.org/rss", Raised "timed out")]
                  (fresh ["http://example.org/rss"])
                  "http://example.org/rss") eq_refl).
Defined.

(** ** Independence of the order of completion *)

Lemma concat_contribution_perm (num_keep : Z)
    (c c' : list (string * FutureResult)) :
  c ≡ₚ c' ->
  concat (contribution num_keep <$> c) ≡ₚ concat (contribution num_keep <$> c').
Proof.
  induction 1 as [|fut c c' _ IH|fut fut' c|c c' c'' _ IH1 _ IH2]; cbn.
  - done.
  - by rewrite IH.
  - rewrite !app_assoc. f_equiv. apply Permutation_app_comm.
  - by rewrite IH1.
Qed.

Lemma mapM_returned {A B} (f : A -> result B) (l : list A) (r : list B) :
  mapM f l = Ok r -> r = omap (fun x => returned (f x)) l.
Proof.
  revert r. induction l as [|x l IH]; intros r; cbn [mapM].
  - by intros [= <-].
  - destruct (f x) as [y|] eqn:Hx; [|done]. cbn.
    destruct (mapM f l) as [ys|]; [|done]. cbn.
    intros [= <-]. cbn [omap list_omap]. rewrite Hx. cbn.
    f_equal. by apply IH.
Qed.

Lemma mapM_Ok_iff {A B} (f : A -> result B) (l : list A) :
  (exists r, mapM f l = Ok r) <-> Forall (fun x => exists y, f x = Ok y) l.
Proof.
  split; [|apply mapM_total].
  intros [r Hr]. apply mapM_Ok in Hr.
  induction Hr as [|x y l r Hx _ IH]; constructor; [by exists y | done].
Qed.

Lemma mapM_perm {A B} (f : A -> result B) (l l' : list A) :
  l ≡ₚ l' ->
  match mapM f l, mapM f l' with
  | Ok r, Ok r' => r ≡ₚ r'
  | Raise _, Raise _ => True
  | _, _ => False
  end.
Proof.
  intros Hperm.
  destruct (mapM f l) as [r|e] eqn:Hl, (mapM f l') as [r'|e'] eqn:Hl'.
  - apply mapM_returned in Hl. apply mapM_returned in Hl'.
    subst. by rewrite Hperm.
  - assert (exists r', mapM f l' = Ok r') as [r' Hr'].
    { apply mapM_Ok_iff. rewrite <- Hperm. apply mapM_Ok_iff. by exists r. }
    congruence.
  - assert (exists r, mapM f l = Ok r) as [r Hr].
    { apply mapM_Ok_iff. rewrite Hperm. apply mapM_Ok_iff. by exists r'. }
    congruence.
  - done.
Qed.

Lemma sort_by_published_returns_iff (l : list Entry) :
  (exists s, sort_by_published l = Ok s) <->
  Forall (fun e => is_Some (e_published e)) l.
Proof.
  split; [|apply sort_by_published_total].
  intros [s Hs]. unfold sort_by_published in Hs.
  destruct (mapM sort_key l) as [keys|] eqn:Hkeys; [|done].
  assert (Hall : exists r, mapM sort_key l = Ok r) by by exists keys.
  apply mapM_Ok_iff in Hall.
  eapply Forall_impl; [exact Hall|].
  intros e [k Hk]. exists k. by apply sort_key_Ok.
Qed.

Lemma merge_perm (l l' : list Entry) :
  l ≡ₚ l' ->
  match sort_by_published l ≫= extract_meta,
        sort_by_published l' ≫= extract_meta with
  | Ok r, Ok r' => r ≡ₚ r'
  | Raise _, Raise _ => True
  | _, _ => False
  end.
Proof.
  intros Hperm.
  destruct (sort_by_published l) as [s|e] eqn:Hs,
           (sort_by_published l') as [s'|e'] eqn:Hs'; cbn.
  - apply sort_by_published_sorted in Hs as [Hs _].
    apply sort_by_published_sorted in Hs' as [Hs' _].
    apply (mapM_perm extract_entry). by rewrite Hs, Hs'.
  - assert (exists s', sort_by_published l' = Ok s') as [s' Hs''].
    { apply sort_by_published_returns_iff. rewrite <- Hperm.
      apply sort_by_published_returns_iff. by exists s. }
    congruence.
  - assert (exists s, sort_by_published l = Ok s) as [s Hs''].
    { apply sort_by_published_returns_iff. rewrite Hperm.
      apply sort_by_published_returns_iff. by exists s'. }
    congruence.
  - done.
Qed.

Lemma errors_for_absent (num_keep : Z) (u : string)
    (c : list (string * FutureResult)) :
  u ∉ c.*1 -> errors_for num_keep u c = [].
Proof.
  induction c as [|fut c IH]; [done|].
  intros Hnotin. apply not_elem_of_cons in Hnotin as [Hne Hnotin].
  unfold errors_for. cbn [omap list_omap].
  destruct (decide (fut.1 = u)); [congruence|]. by apply IH.
Qed.

Lemma errors_for_at_most_one (num_keep : Z) (u : string)
    (c : list (string * FutureResult)) :
  NoDup c.*1 -> (length (errors_for num_keep u c) <= 1)%nat.
Proof.
  induction c as [|fut c IH]; [cbn; lia|].
  intros Hnodup. apply NoDup_cons in Hnodup as [Hfresh Hnodup].
  unfold errors_for. cbn [omap list_omap].
  fold (errors_for num_keep u c).
  destruct (decide (fut.1 = u)) as [<-|Hne]; [|by apply IH].
  rewrite errors_for_absent by done.
  destruct (try_source num_keep fut.2); cbn; lia.
Qed.

(** X2: the order in which the futures complete decides neither which
    sources fail nor what is merged.  Two runs over the same results in two
    orders record the same URLs in [error_urls] (and the same errors when no
    URL is listed twice), submit the same fetches, both return or both
    raise, and store the same records up to their order. *)
Theorem fetch_entries_order_independent
    (completed completed' : list (string * FutureResult)) (p : Process) :
  completed ≡ₚ completed' ->
  let r := __fetch_entries completed p in
  let r' := __fetch_entries completed' p in
  (forall u, is_Some (error_urls r.2 !! u) <-> is_Some (error_urls r'.2 !! u)) /\
  (NoDup completed.*1 -> error_urls r.2 = error_urls r'.2) /\
  submitted r.2 = submitted r'.2 /\
  (r.1 = Ok () <-> r'.1 = Ok ()) /\
  _mixed_entries (self r.2) ≡ₚ _mixed_entries (self r'.2).
Proof.
  intros Hperm r r'.
  assert (Herrs : forall u,
            errors_for (_num_keep (self p)) u completed
            ≡ₚ errors_for (_num_keep (self p)) u completed').
  { intros u. unfold errors_for. by rewrite Hperm. }
  subst r r'.
  destruct (Z.leb_spec (max_threads (self p)) 0) as [Hpool|Hpool];
    [by rewrite !fetch_entries_no_executor by done|].
  rewrite !fetch_entries_executor by lia.
  set (r := fetch_with_executor completed p).
  set (r' := fetch_with_executor completed' p).
  split; [|split; [|split]].
  - intros u. subst r r'. rewrite !executor_error_urls.
    pose proof (Herrs u) as Hu.
    destruct (errors_for _ u completed) as [|e l] eqn:Hl.
    + apply Permutation_nil_l in Hu as <-. done.
    + rewrite !last_is_Some. split; [|done]. intros _ Hnil.
      rewrite Hnil in Hu. by apply Permutation_nil_r in Hu.
  - intros Hnodup. apply map_eq. intros u. subst r r'.
    rewrite !executor_error_urls. f_equal.
    pose proof (errors_for_at_most_one (_num_keep (self p)) u _ Hnodup) as Hlen.
    pose proof (Herrs u) as Hu.
    destruct (errors_for _ u completed) as [|e [|e' l]]; cbn in Hlen; [| |lia].
    + by apply Permutation_nil_l in Hu.
    + by apply Permutation_singleton_l in Hu.
  - subst r r'. by rewrite !executor_submitted.
  - subst r r'. unfold fetch_with_executor.
    pose proof (merge_perm (collect_all (_num_keep (self p)) completed).1
                  (collect_all (_num_keep (self p)) completed').1) as Hmerge.
    unfold collect_all in Hmerge. rewrite !collect_entries in Hmerge.
    specialize (Hmerge ltac:(cbn; by apply concat_contribution_perm)).
    unfold collect_all. rewrite !collect_entries.
    destruct (sort_by_published _ ≫= _), (sort_by_published _ ≫= _);
      cbn; try done.
Qed.

Lemma fetch_entries_order_independent_witness :
  [("http://example.org/a", Raised "timed out");
   ("http://example.org/b", Response (feed_of [january_2024]))]
  ≡ₚ [("http://example.org/b", Response (feed_of [january_2024]));
      ("http://example.org/a", Raised "timed out")] /\
  _mixed_entries (self (__fetch_entries
     [("http://example.org/a", Raised "timed out");
      ("http://example.org/b", Response (feed_of [january_2024]))]
     (fresh ["http://example.org/a"; "http://example.org/b"])).2)
  ≡ₚ _mixed_entries (self (__fetch_entries
     [("http://example.org/b", Response (feed_of [january_2024]));
      ("http://example.org/a", Raised "timed out")]
     (fresh ["http://example.org/a"; "http://example.org/b"])).2).
Proof.
  split; [apply Permutation_swap|].
  exact (proj2 (proj2 (proj2 (proj2
    (fetch_entries_order_independent _ _
       (fresh ["http://example.org/a"; "http://example.org/b"])
       (Permutation_swap _ _ _)))))).
Defined.

(** ** The size of the merged list *)

Lemma length_concat_contribution (num_keep : Z)
    (c : list (string * FutureResult)) :
  length (concat (contribution num_keep <$> c))
  = sum_list ((fun fut => length (contribution num_keep fut)) <$> c).
Proof.
  induction c as [|fut c IH]; cbn; [done|].
  by rewrite length_app, IH.
Qed.

Lemma length_backfill_author (a : option AuthorDetail) (l : list Entry) :
  length (backfill_author a l) = length l.
Proof. symmetry. eapply Forall2_length, backfill_author_frame. Qed.

Lemma length_contribution (num_keep : Z) (fut : string * FutureResult) :
  0 <= num_keep ->
  length (contribution num_keep fut) = expected_count num_keep fut.2.
Proof.
  intros Hn. unfold contribution, try_source, expected_count.
  destruct fut.2 as [msg|f]; [done|].
  destruct (parse_err f) eqn:Herr.
  - apply parse_err_iff in Herr as [-> _]. cbn. lia.
  - rewrite length_backfill_author. unfold keep_newest.
    destruct (Z.eqb_spec num_keep (-1)); [lia|].
    rewrite py_slice_prefix by done. by rewrite length_take.
Qed.

(** X3: a run that returns stores exactly one record per kept entry: when
    [num_keep] is a count, the merged list has as many records as the sum,
    over the completed futures, of the smaller of [num_keep] and the number
    of entries of the source, a failed source counting for none. *)
Theorem fetch_entries_length (completed : list (string * FutureResult))
    (p : Process) :
  0 <= _num_keep (self p) ->
  (__fetch_entries completed p).1 = Ok () ->
  length (_mixed_entries (self (__fetch_entries completed p).2))
  = sum_list ((fun fut => expected_count (_num_keep (self p)) fut.2)
                <$> completed).
Proof.
  intros Hn. unfold __fetch_entries.
  destruct (max_threads (self p) <=? 0); [done|]. unfold fetch_with_executor.
  destruct (sort_by_published _) as [s|e] eqn:Hs; cbn; [|done].
  destruct (extract_meta s) as [mixed|e] eqn:Hmixed; cbn; [|done].
  intros _. apply mapM_Ok, Forall2_length in Hmixed. rewrite <- Hmixed.
  apply sort_by_published_sorted in Hs as [Hperm _].
  rewrite (Permutation_length Hperm).
  unfold collect_all. rewrite collect_entries. cbn.
  rewrite length_concat_contribution. f_equal.
  apply list_fmap_ext. intros i fut _. by apply length_contribution.
Qed.

Lemma fetch_entries_length_witness :
  0 <= _num_keep (self (fresh ["http://example.org/a"; "http://example.org/b"])) /\
  length (_mixed_entries (self (__fetch_entries
     [("http://example.org/a", Raised "timed out");
      ("http://example.org/b", Response (feed_of [january_2024; january_2023]))]
     (fresh ["http://example.org/a"; "http://example.org/b"])).2))
  = sum_list ((fun fut => expected_count 3 fut.2)
      <$> [("http://example.org/a", Raised "timed out");
           ("http://example.org/b", Response (feed_of [january_2024; january_2023]))]).
Proof.
  split; [vm_compute; discriminate|].
  apply (fetch_entries_length
           [("http://example.org/a", Raised "timed out");
            ("http://example.org/b", Response (feed_of [january_2024; january_2023]))]
           (fresh ["http://example.org/a"; "http://example.org/b"])).
  - vm_compute. discriminate.
  - vm_compute. reflexivity.
Defined.

(** ** The sort *)

Lemma ltb_irrefl (a : string) : String.ltb a a = false.
Proof.
  unfold String.ltb. pose proof (String.compare_antisym a a) as Hanti.
  destruct (String.compare a a); [done | discriminate Hanti | done].
Qed.

Lemma insert_desc_filter (k : string) (x : string * Entry)
    (l : list (string * Entry)) :
  filter (fun p => p.1 = k) (insert_desc x l)
  = filter (fun p => p.1 = k) (x :: l).
Proof.
  induction l as [|y l IH]; cbn [insert_desc]; [done|].
  destruct (String.ltb x.1 y.1) eqn:Hxy; [|done].
  rewrite filter_cons, IH, !filter_cons.
  destruct (decide (y.1 = k)) as [Hy|Hy]; [|done].
  destruct (decide (x.1 = k)) as [Hx|Hx]; [|done].
  rewrite Hx, <- Hy, ltb_irrefl in Hxy. discriminate Hxy.
Qed.

Lemma sort_desc_filter (k : string) (l : list (string * Entry)) :
  filter (fun p => p.1 = k) (sort_desc l) = filter (fun p => p.1 = k) l.
Proof.
  induction l as [|x l IH]; [done|].
  change (sort_desc (x :: l)) with (insert_desc x (sort_desc l)).
  by rewrite insert_desc_filter, !filter_cons, IH.
Qed.

Lemma filter_keyed (k : string) (ps : list (string * Entry)) :
  Forall (fun p => e_published p.2 = Some p.1) ps ->
  filter (fun e => e_published e = Some k) ps.*2
  = (filter (fun p => p.1 = k) ps).*2.
Proof.
  induction 1 as [|p ps Hp _ IH]; [done|].
  rewrite fmap_cons, !filter_cons, IH, Hp.
  destruct (decide (p.1 = k)) as [->|Hne].
  - by rewrite decide_True.
  - rewrite decide_False; [done | congruence].
Qed.

(** X4: when the sort returns, it returns the same entries rearranged so
    that the ['published'] text never increases from one entry to the next,
    and it is stable: the entries that share a ['published'] text stay in
    the order in which they were collected. *)
Theorem sort_by_published_stable (l s : list Entry) :
  sort_by_published l = Ok s ->
  s ≡ₚ l /\ Sorted published_ge s /\
  forall k, filter (fun e => e_published e = Some k) s
            = filter (fun e => e_published e = Some k) l.
Proof.
  intros Hs.
  destruct (sort_by_published_sorted l s Hs) as [Hperm Hsorted].
  split; [done|]. split; [done|]. intros k.
  unfold sort_by_published in Hs.
  destruct (mapM sort_key l) as [keys|] eqn:Hkeys; [|done].
  cbn in Hs. injection Hs as <-. apply mapM_Ok in Hkeys.
  assert (Hlen : length l = length keys) by by eapply Forall2_length.
  assert (Hzip : Forall (fun p => e_published p.2 = Some p.1) (zip keys l)).
  { clear Hlen Hperm Hsorted.
    induction Hkeys as [|e k' l keys He _ IH]; cbn; constructor;
      [by apply sort_key_Ok | done]. }
  rewrite filter_keyed by by rewrite sort_desc_perm.
  rewrite sort_desc_filter, <- filter_keyed by done.
  by rewrite snd_zip by lia.
Qed.

Lemma sort_by_published_stable_witness :
  sort_by_published [january_2024; january_2023; january_2024]
  = Ok [january_2023; january_2024; january_2024] /\
  [january_2023; january_2024; january_2024]
  ≡ₚ [january_2024; january_2023; january_2024].
Proof.
  assert (Hs : sort_by_published [january_2024; january_2023; january_2024]
               = Ok [january_2023; january_2024; january_2024])
    by (vm_compute; reflexivity).
  split; [exact Hs|].
  exact (proj1 (sort_by_published_stable _ _ Hs)).
Defined.

Lemma mapM_Raise {A B} (f : A -> result B) (l : list A) (e : PyExc) :
  mapM f l = Raise e -> exists x, x ∈ l /\ f x = Raise e.
Proof.
  induction l as [|x l IH]; cbn [mapM]; [done|].
  destruct (f x) as [y|e'] eqn:Hx; cbn.
  - destruct (mapM f l) as [ys|e'']; cbn; [done|].
    intros [= <-]. destruct (IH eq_refl) as (x' & Hin & Hx').
    exists x'. split; [by right | done].
  - intros [= <-]. exists x. split; [by left | done].
Qed.

Lemma datetime_new_not_KeyError (args : list Z) (k : string) :
  datetime_new args <> Raise (KeyError k).
Proof.
  unfold datetime_new.
  destruct args as [|y [|mo [|d [|h [|mi [|s [|]]]]]]]; try done.
  repeat (match goal with |- context [if ?b then _ else _] => destruct b end;
          try done).
Qed.

Lemma set_date_not_KeyError (out : string) (tp : option (list Z))
    (m : gmap string PyVal) (k : string) :
  set_date out tp m <> Raise (KeyError k).
Proof.
  unfold set_date, time_struct_to_datetime.
  destruct tp as [[|x tp]|]; try done.
  destruct ((x :: tp) !! 5%nat) as [s|]; [|done].
  pose proof (datetime_new_not_KeyError
                (py_slice 0 5 (x :: tp) ++ [s `min` 59]) k) as Hnew.
  destruct (datetime_new _); [done|]. cbn. congruence.
Qed.

Lemma extract_entry_not_KeyError (e : Entry) (k : string) :
  extract_entry e <> Raise (KeyError k).
Proof.
  unfold extract_entry.
  set (m0 := match e_author_detail e with
             | Some a => _
             | None => _
             end).
  pose proof (set_date_not_KeyError "pubdate" (e_published_parsed e) m0 k) as H1.
  destruct (set_date "pubdate" _ m0) as [m1|]; cbn; [|congruence].
  pose proof (set_date_not_KeyError "updateddate" (e_updated_parsed e) m1 k) as H2.
  destruct (set_date "updateddate" _ m1) as [m2|]; cbn; [|congruence].
  destruct (e_enclosures e) as [encs|]; [|done].
  destruct (mapM make_enclosure encs) as [r|err] eqn:Hencs; [done|]. cbn.
  apply mapM_Raise in Hencs as (enc & _ & Henc). intros [= ->].
  unfold make_enclosure, getattr in Henc.
  destruct (enc_href enc), (enc_length enc), (enc_type enc); discriminate Henc.
Qed.

Lemma executor_KeyError (completed : list (string * FutureResult))
    (p : Process) :
  let r := fetch_with_executor completed p in
  ((exists k, r.1 = Raise (KeyError k)) <->
   Exists (fun e => e_published e = None)
     (collect_all (_num_keep (self p)) completed).1) /\
  (forall k, r.1 = Raise (KeyError k) ->
     k = "published" /\
     _mixed_entries (self r.2) = _mixed_entries (self p) /\
     error_urls r.2 = (collect_all (_num_keep (self p)) completed).2).
Proof.
  intros r. subst r. unfold fetch_with_executor.
  set (l := (collect_all (_num_keep (self p)) completed).1).
  destruct (sort_by_published l) as [s|e] eqn:Hs; cbn.
  - assert (Hall : Forall (fun e => is_Some (e_published e)) l).
    { apply sort_by_published_returns_iff. by exists s. }
    assert (Hnone : ~ Exists (fun e => e_published e = None) l).
    { intros Hex. apply Exists_exists in Hex as (e & Hin & He).
      eapply Forall_forall in Hall; [|exact Hin].
      destruct Hall as [x Hx]. congruence. }
    assert (Hmeta : forall k, extract_meta s <> Raise (KeyError k)).
    { intros k Hk. apply mapM_Raise in Hk as (e & _ & He).
      by apply extract_entry_not_KeyError in He. }
    destruct (extract_meta s) as [mixed|e]; cbn.
    + split; [split; [by intros [k [=]] | done] | by intros k [=]].
    + split; [split; [|done] | ].
      * intros [k [= ->]]. by destruct (Hmeta k).
      * intros k [= ->]. by destruct (Hmeta k).
  - assert (Hex : Exists (fun e => e_published e = None) l).
    { destruct (decide (Exists (fun e => e_published e = None) l)) as [|Hno];
        [done|].
      assert (exists s, sort_by_published l = Ok s) as [s Hs'].
      { apply sort_by_published_returns_iff.
        apply not_Exists_Forall in Hno; [|solve_decision].
        eapply Forall_impl; [exact Hno|]. intros x Hx. cbn in Hx.
        destruct (e_published x); [by eexists | done]. }
      congruence. }
    pose proof (sort_by_published_raises l Hex) as Hraise.
    rewrite Hs in Hraise. injection Hraise as ->.
    split; [split; [done | intros _; by eexists]|].
    by intros k [= <-].
Qed.

(** X5: a run raises [KeyError] exactly when the executor could be built
    ([max_threads] positive) and one of the collected entries has no
    ['published'] key; the key named is then ['published'], the run has
    rebuilt [error_urls] by then and leaves the stored list as it was. *)
Theorem fetch_entries_KeyError (completed : list (string * FutureResult))
    (p : Process) :
  let r := __fetch_entries completed p in
  ((exists k, r.1 = Raise (KeyError k)) <->
   0 < max_threads (self p) /\
   Exists (fun e => e_published e = None)
     (collect_all (_num_keep (self p)) completed).1) /\
  (forall k, r.1 = Raise (KeyError k) ->
     k = "published" /\
     _mixed_entries (self r.2) = _mixed_entries (self p) /\
     error_urls r.2 = (collect_all (_num_keep (self p)) completed).2).
Proof.
  intros r. subst r.
  destruct (Z.leb_spec (max_threads (self p)) 0) as [Hpool|Hpool].
  - rewrite fetch_entries_no_executor by done. cbn.
    split; [split; [by intros [k [=]] | intros [? _]; lia] | by intros k [=]].
  - rewrite fetch_entries_executor by done.
    destruct (executor_KeyError completed p) as [Hiff Hkey].
    split; [|exact Hkey]. rewrite Hiff. by split; [|intros [_ ?]].
Qed.

Lemma fetch_entries_KeyError_witness :
  (__fetch_entries
     [("http://example.org/rss", Response (feed_of [bare_entry "undated"]))]
     (fresh ["http://example.org/rss"])).1 = Raise (KeyError "published") /\
  "published" = "published" /\
  _mixed_entries (self (__fetch_entries
     [("http://example.org/rss", Response (feed_of [bare_entry "undated"]))]
     (fresh ["http://example.org/rss"])).2) = [].
Proof.
  assert (Hraise : (__fetch_entries
     [("http://example.org/rss", Response (feed_of [bare_entry "undated"]))]
     (fresh ["http://example.org/rss"])).1 = Raise (KeyError "published"))
    by (vm_compute; reflexivity).
  split; [exact Hraise|].
  destruct (proj2 (fetch_entries_KeyError
     [("http://example.org/rss", Response (feed_of [bare_entry "undated"]))]
     (fresh ["http://example.org/rss"])) "published" Hraise)
    as (Hkey & Hstored & _).
  split; [exact Hkey | exact Hstored].
Defined.

(** ** When normalisation returns *)

Lemma datetime_new_Ok_range (y mo d h mi s : Z) (dt : datetime) :
  datetime_new [y; mo; d; h; mi; s] = Ok dt ->
  1 <= y <= 9999 /\ 1 <= mo <= 12 /\ 1 <= d <= days_in_month y mo /\
  0 <= h <= 23 /\ 0 <= mi <= 59 /\ 0 <= s <= 59.
Proof.
  unfold datetime_new.
  repeat (match goal with
          | |- context [negb ((?a <=? ?x) && (?x <=? ?b))] =>
              destruct (Z.leb_spec a x); cbn [andb negb]; [|done];
              destruct (Z.leb_spec x b); cbn [andb negb]; [|done]
          end).
  intros _. lia.
Qed.

Lemma set_date_Ok_valid (out : string) (tp : option (list Z))
    (m m' : gmap string PyVal) :
  set_date out tp m = Ok m' -> date_ok tp.
Proof.
  unfold set_date, date_ok. destruct tp as [[|y tp]|]; try done.
  destruct (time_struct_to_datetime (y :: tp)) as [dt|] eqn:Hdt; [|done].
  intros _. destruct tp as [|mo [|d [|h [|mi [|s rest]]]]]; try done.
  rewrite time_struct_to_datetime_six in Hdt.
  apply datetime_new_Ok_range in Hdt.
  exists y, mo, d, h, mi, s, rest. split; [done|]. lia.
Qed.

Lemma make_enclosure_Ok (enc : EnclosureDict) (x : Enclosure) :
  make_enclosure enc = Ok x -> enclosure_of enc x.
Proof.
  unfold make_enclosure, getattr, enclosure_of.
  destruct (enc_href enc), (enc_length enc), (enc_type enc); try done.
  by intros [= <-].
Qed.

Lemma extract_entry_Ok_normalisable (e : Entry) (m : gmap string PyVal) :
  extract_entry e = Ok m -> normalisable e.
Proof.
  unfold extract_entry, normalisable.
  set (m0 := match e_author_detail e with
             | Some a => _
             | None => _
             end).
  destruct (set_date "pubdate" (e_published_parsed e) m0) as [m1|] eqn:H1;
    [|done]. cbn.
  destruct (set_date "updateddate" (e_updated_parsed e) m1) as [m2|] eqn:H2;
    [|done]. cbn.
  intros Hm. split; [by eapply set_date_Ok_valid|].
  split; [by eapply set_date_Ok_valid|].
  destruct (e_enclosures e) as [encs|]; [|done].
  destruct (mapM make_enclosure encs) as [r|] eqn:Hencs; [|done].
  apply mapM_Ok in Hencs. clear Hm.
  induction Hencs as [|enc x encs r Hx _ IH]; constructor; [|done].
  apply make_enclosure_Ok in Hx as (Hh & Hl & Ht).
  unfold complete_enclosure. by rewrite Hh, Hl, Ht.
Qed.

(** X6: [extract_meta] returns exactly on the lists whose entries all have
    date tuples that are absent, empty or valid (six fields at least, a date
    that exists, a time of day, seconds not negative) and enclosures that
    each have an address, a length and a type; it then returns one record
    per entry. *)
Theorem extract_meta_returns_iff (parsed_entries : list Entry) :
  ((exists mixed, extract_meta parsed_entries = Ok mixed) <->
   Forall normalisable parsed_entries) /\
  (forall mixed, extract_meta parsed_entries = Ok mixed ->
                 length mixed = length parsed_entries).
Proof.
  split.
  - unfold extract_meta. rewrite mapM_Ok_iff. split.
    + intros Hall. eapply Forall_impl; [exact Hall|].
      intros e [m Hm]. by eapply extract_entry_Ok_normalisable.
    + intros Hall. eapply Forall_impl; [exact Hall|].
      apply extract_entry_total.
  - intros mixed Hmixed. symmetry. by eapply Forall2_length, mapM_Ok.
Qed.

Lemma extract_meta_returns_iff_witness :
  Forall normalisable [leap_entry] /\
  exists mixed, extract_meta [leap_entry] = Ok mixed /\
                length mixed = length [leap_entry].
Proof.
  split; [exact leap_entry_normalisable|].
  destruct (extract_meta_returns_iff [leap_entry]) as [Hiff Hlen].
  destruct (proj2 Hiff leap_entry_normalisable) as [mixed Hmixed].
  exists mixed. split; [exact Hmixed | exact (Hlen mixed Hmixed)].
Defined.

Ltac lookup_inserted :=
  repeat (rewrite lookup_insert_eq || rewrite lookup_insert_ne by done).

Lemma extract_entry_rest (e : Entry) (m : gmap string PyVal) :
  extract_entry e = Ok m -> carries_rest e m.
Proof.
  unfold extract_entry, carries_rest.
  set (m0 := match e_author_detail e with
             | Some a => _
             | None => _
             end).
  destruct (set_date "pubdate" (e_published_parsed e) m0) as [m1|] eqn:H1;
    [|done]. cbn.
  destruct (set_date "updateddate" (e_updated_parsed e) m1) as [m2|] eqn:H2;
    [|done]. cbn.
  assert (Hm2 : forall k : string,
            k <> "pubdate" -> k <> "updateddate" -> m2 !! k = m0 !! k).
  { intros k ? ?. rewrite (set_date_other _ k _ _ _ H2) by done.
    by rewrite (set_date_other _ k _ _ _ H1) by done. }
  assert (Hcat : m2 !! "categories" = None).
  { rewrite Hm2 by done. subst m0.
    destruct (e_author_detail e); by lookup_inserted. }
  assert (Henc : m2 !! "enclosures" = None).
  { rewrite Hm2 by done. subst m0.
    destruct (e_author_detail e); by lookup_inserted. }
  destruct (e_tags e) as [ts|], (e_enclosures e) as [encs|].
  - destruct (mapM make_enclosure encs) as [r|] eqn:Hencs; [|done]. cbn.
    intros [= <-]. lookup_inserted. repeat (split; [done|]).
    exists r. split; [done|]. apply mapM_Ok in Hencs.
    eapply Forall2_impl; [exact Hencs|]. apply make_enclosure_Ok.
  - intros [= <-]. lookup_inserted. by rewrite Henc.
  - destruct (mapM make_enclosure encs) as [r|] eqn:Hencs; [|done]. cbn.
    intros [= <-]. lookup_inserted. rewrite Hcat. repeat (split; [done|]).
    exists r. split; [done|]. apply mapM_Ok in Hencs.
    eapply Forall2_impl; [exact Hencs|]. apply make_enclosure_Ok.
  - intros [= <-]. lookup_inserted. by rewrite Hcat, Henc.
Qed.

(** X7: whenever [extract_meta] returns, the record of each entry holds,
    besides the keys of C8, the entry's comments, id (as [unique_id]) and
    license (as [item_copyright]), each as [None] when the entry has none;
    the terms of its tags, in order, under [categories] exactly when the
    entry has tags; and under [enclosures], exactly when the entry has
    enclosures, one enclosure object per enclosure, in order, with its
    address, length and type. *)
Theorem extract_meta_rest (parsed_entries : list Entry)
    (mixed : list (gmap string PyVal)) :
  extract_meta parsed_entries = Ok mixed ->
  Forall2 carries_rest parsed_entries mixed.
Proof.
  intros Hmixed. apply mapM_Ok in Hmixed.
  eapply Forall2_impl; [exact Hmixed|]. apply extract_entry_rest.
Qed.

Lemma extract_meta_rest_witness :
  exists mixed, extract_meta [leap_entry] = Ok mixed /\
                Forall2 carries_rest [leap_entry] mixed.
Proof.
  destruct (mapM_total extract_entry [leap_entry]) as [mixed Hmixed].
  { eapply Forall_impl; [exact leap_entry_normalisable|].
    apply extract_entry_total. }
  exists mixed. split; [exact Hmixed|].
  exact (extract_meta_rest [leap_entry] mixed Hmixed).
Defined.

(** ** When a run returns *)

(** X8: a call of [__fetch_entries] returns exactly when [max_threads] is
    positive, so that the executor can be built, and every entry collected
    from the sources that parsed has a ['published'] key and is accepted by
    [extract_meta]; the sources that failed have no say. *)
Theorem fetch_entries_returns_iff (completed : list (string * FutureResult))
    (p : Process) :
  (__fetch_entries completed p).1 = Ok () <->
  0 < max_threads (self p) /\
  Forall (fun e => is_Some (e_published e) /\ normalisable e)
    (concat (contribution (_num_keep (self p)) <$> completed)).
Proof.
  destruct (collect_all_isolates (_num_keep (self p)) completed)
    as (_ & <- & _).
  set (l := (collect_all (_num_keep (self p)) completed).1).
  split.
  - unfold __fetch_entries.
    destruct (Z.leb_spec (max_threads (self p)) 0) as [Hpool|Hpool]; [done|].
    unfold fetch_with_executor. fold l.
    destruct (sort_by_published l) as [s|e] eqn:Hs; cbn; [|done].
    destruct (extract_meta s) as [mixed|e] eqn:Hmixed; cbn; [|done].
    intros _. split; [done|].
    assert (Hpub : Forall (fun e => is_Some (e_published e)) l).
    { apply sort_by_published_returns_iff. by exists s. }
    assert (Hnorm : Forall normalisable l).
    { apply sort_by_published_sorted in Hs as [Hperm _]. rewrite <- Hperm.
      apply mapM_Ok in Hmixed. clear Hperm.
      induction Hmixed as [|e m s mixed He _ IH]; constructor; [|done].
      by eapply extract_entry_Ok_normalisable. }
    apply Forall_and. by split.
  - intros [Hpool Hall].
    destruct (fetch_entries_completes completed p Hpool Hall) as [p' ->].
    done.
Qed.

Lemma fetch_entries_returns_iff_witness :
  0 < max_threads (self (fresh ["http://example.org/rss"])) /\
  (__fetch_entries
     [("http://example.org/rss", Response (feed_of [january_2024]))]
     (fresh ["http://example.org/rss"])).1 = Ok ().
Proof.
  split; [reflexivity|].
  apply (proj2 (fetch_entries_returns_iff
     [("http://example.org/rss", Response (feed_of [january_2024]))]
     (fresh ["http://example.org/rss"]))).
  split; [reflexivity|].
  repeat constructor; cbn; try by eexists.
  exists 2024, 1, 1, 10, 0, 0, [0; 1; 0].
  split; [reflexivity|]. vm_compute. intuition discriminate.
Defined.

(** X9: on an instance with a positive [max_threads] and nothing stored,
    when every source fails, the access returns the empty list and every
    configured URL is a key of [error_urls]. *)
Theorem mixed_entries_all_failing (completed : list (string * FutureResult))
    (p : Process) :
  0 < max_threads (self p) ->
  _mixed_entries (self p) = [] ->
  Forall (failing (_num_keep (self p))) completed ->
  completed.*1 ≡ₚ _feeds (self p) ->
  (mixed_entries completed p).1 = Ok [] /\
  forall u, u ∈ _feeds (self p) ->
            is_Some (error_urls (mixed_entries completed p).2 !! u).
Proof.
  intros Hpool Hnil Hfail Hperm.
  destruct (mixed_entries_empty completed p Hnil) as [-> _].
  destruct (fetch_entries_all_failing completed p Hpool Hfail Hperm)
    as (p' & -> & Hempty & Hurls).
  cbn. by rewrite Hempty.
Qed.

Lemma mixed_entries_all_failing_witness :
  _mixed_entries (self (fresh ["http://example.org/a"; "http://example.org/b"]))
  = [] /\
  (mixed_entries
     [("http://example.org/b",
       Response {| entries := []; bozo := true;
                   bozo_exception := Some "not well-formed";
                   feed_author_detail := None |});
      ("http://example.org/a", Raised "timed out")]
     (fresh ["http://example.org/a"; "http://example.org/b"])).1 = Ok [].
Proof.
  split; [reflexivity|].
  refine (proj1 (mixed_entries_all_failing _
                   (fresh ["http://example.org/a"; "http://example.org/b"])
                   eq_refl eq_refl _ _)).
  - repeat constructor; by eexists.
  - apply Permutation_swap.
Defined.

(** ** Invariants of an instance *)

Lemma length_py_slice_cap {A} (n : Z) (l : list A) :
  0 <= n -> Z.of_nat (length (py_slice 0 n l)) <= n.
Proof.
  intros Hn. rewrite py_slice_prefix by done. rewrite length_take. lia.
Qed.

Lemma fetch_entries_frame (completed : list (string * FutureResult))
    (p : Process) :
  _feeds (self (__fetch_entries completed p).2) = _feeds (self p) /\
  max_feeds (self (__fetch_entries completed p).2) = max_feeds (self p) /\
  _num_keep (self (__fetch_entries completed p).2) = _num_keep (self p) /\
  title (self (__fetch_entries completed p).2) = title (self p).
Proof.
  unfold __fetch_entries, fetch_with_executor.
  destruct (max_threads (self p) <=? 0); [done|].
  by destruct (sort_by_published _ ≫= _).
Qed.

Lemma fetch_entries_mandatory (completed : list (string * FutureResult))
    (p : Process) :
  Forall mandatory (_mixed_entries (self p)) ->
  Forall mandatory (_mixed_entries (self (__fetch_entries completed p).2)).
Proof.
  intros Hp. unfold __fetch_entries, fetch_with_executor.
  destruct (max_threads (self p) <=? 0); [done|].
  destruct (sort_by_published _) as [s|e]; cbn; [|done].
  destruct (extract_meta s) as [mixed|e] eqn:Hmixed; cbn; [|done].
  apply mapM_Ok in Hmixed. clear Hp.
  induction Hmixed as [|e m s mixed He _ IH]; constructor; [|done].
  apply extract_entry_normalised in He as (Ht & Hl & Hd & _).
  by eexists _, _, _.
Qed.

Lemma mixed_entries_state (completed : list (string * FutureResult))
    (p : Process) :
  (mixed_entries completed p).2 = p \/
  (mixed_entries completed p).2 = (__fetch_entries completed p).2.
Proof.
  unfold mixed_entries.
  destruct (Z.of_nat (length (_mixed_entries (self p))) <? 1); [|by left].
  right. by destruct (__fetch_entries completed p) as [[[]|e] q].
Qed.

Lemma reachable_invariant (p : Process) :
  reachable p ->
  (0 <= max_feeds (self p) ->
   Z.of_nat (length (_feeds (self p))) <= max_feeds (self p)) /\
  Forall mandatory (_mixed_entries (self p)).
Proof.
  induction 1 as [t l d feeds n th mf|p q _ [IHcap IHman] Hstep].
  - split; [|by constructor]. cbn. apply length_py_slice_cap.
  - destruct Hstep as [value p|value p|value p|completed p].
    + split; [|by constructor]. cbn. apply length_py_slice_cap.
    + split; [|by constructor]. cbn. apply length_py_slice_cap.
    + done.
    + destruct (mixed_entries_state completed p) as [->| ->]; [done|].
      destruct (fetch_entries_frame completed p) as (-> & -> & _).
      split; [done|]. by apply fetch_entries_mandatory.
Qed.

(** X10: the list of feeds of an instance never exceeds [max_feeds]:
    whatever lists are passed to the constructor and assigned to [feeds],
    and whatever else is assigned or read, an instance with a [max_feeds]
    that is not negative holds at most [max_feeds] URLs, so that no run
    submits more fetches than that. *)
Theorem reachable_feeds_capped (p : Process)
    (completed : list (string * FutureResult)) :
  reachable p -> 0 <= max_feeds (self p) ->
  Z.of_nat (length (_feeds (self p))) <= max_feeds (self p) /\
  Z.of_nat (length (submitted (__fetch_entries completed p).2))
  <= Z.of_nat (length (submitted p)) + max_feeds (self p).
Proof.
  intros Hp Hmax. destruct (reachable_invariant p Hp) as [Hcap _].
  split; [by apply Hcap|].
  rewrite fetch_entries_submitted, length_app. specialize (Hcap Hmax).
  destruct (max_threads (self p) <=? 0); cbn [length]; lia.
Qed.

Lemma reachable_feeds_capped_witness :
  reachable (set_feeds ["http://example.org/a"; "http://example.org/b"]
               {| self := __init__ "Title" EmptyString EmptyString [] 3 5 1;
                  submitted := [] |}) /\
  Z.of_nat (length (_feeds (self
    (set_feeds ["http://example.org/a"; "http://example.org/b"]
       {| self := __init__ "Title" EmptyString EmptyString [] 3 5 1;
          submitted := [] |})))) <= 1.
Proof.
  assert (Hreach : reachable
            (set_feeds ["http://example.org/a"; "http://example.org/b"]
               {| self := __init__ "Title" EmptyString EmptyString [] 3 5 1;
                  submitted := [] |})).
  { eapply reachable_step; [apply reachable_init | apply step_set_feeds]. }
  split; [exact Hreach|].
  refine (proj1 (reachable_feeds_capped _ [] Hreach _)). cbn. lia.
Defined.

(** X11: every record that an instance stores has the keys ['title'],
    ['link'] and ['description'], each holding a string: the arguments that
    [add_item] requires are there for every entry that [__generate_feed]
    passes to it. *)
Theorem reachable_records_mandatory (p : Process) (m : gmap string PyVal) :
  reachable p -> m ∈ _mixed_entries (self p) -> mandatory m.
Proof.
  intros Hp Hm. destruct (reachable_invariant p Hp) as [_ Hall].
  by eapply Forall_forall in Hall.
Qed.

Lemma reachable_records_mandatory_witness :
  let p := (mixed_entries
              [("http://example.org/rss", Response (feed_of [january_2024]))]
              (fresh ["http://example.org/rss"])).2 in
  reachable p /\ exists m, m ∈ _mixed_entries (self p) /\ mandatory m.
Proof.
  intros p.
  assert (Hreach : reachable p).
  { eapply reachable_step; [|apply step_mixed_entries].
    unfold fresh, default_mixer. apply reachable_init. }
  split; [exact Hreach|].
  destruct (_mixed_entries (self p)) as [|m l] eqn:Hstored.
  - apply (f_equal length) in Hstored. vm_compute in Hstored.
    discriminate Hstored.
  - exists m. assert (Hin : m ∈ _mixed_entries (self p))
      by (rewrite Hstored; left).
    rewrite <- Hstored. split; [exact Hin|].
    exact (reachable_records_mandatory p m Hreach Hin).
Defined.

(** ** A count of zero *)

Lemma contribution_zero (fut : string * FutureResult) :
  contribution 0 fut = [].
Proof.
  apply length_zero_iff_nil.
  rewrite length_contribution by done.
  unfold expected_count. by destruct fut.2.
Qed.

Lemma collect_all_zero (completed : list (string * FutureResult)) :
  (collect_all 0 completed).1 = [].
Proof.
  unfold collect_all. rewrite collect_entries. cbn.
  induction completed as [|fut c IH]; cbn; [done|].
  by rewrite contribution_zero.
Qed.

(** X12: with [num_keep = 0] nothing is kept from any source: on an
    instance with a positive [max_threads], an access returns the empty list
    whatever the sources deliver, it never raises, and since the stored list
    stays empty every access runs the pipeline again. *)
Theorem mixed_entries_num_keep_zero (completed : list (string * FutureResult))
    (p : Process) :
  0 < max_threads (self p) ->
  _num_keep (self p) = 0 -> _mixed_entries (self p) = [] ->
  (mixed_entries completed p).1 = Ok [] /\
  _mixed_entries (self (mixed_entries completed p).2) = [] /\
  _num_keep (self (mixed_entries completed p).2) = 0 /\
  max_threads (self (mixed_entries completed p).2) = max_threads (self p) /\
  submitted (mixed_entries completed p).2
  = (submitted p ++ _feeds (self p))%list.
Proof.
  intros Hpool Hzero Hnil.
  destruct (mixed_entries_empty completed p Hnil) as (Hrun & Hsub & _).
  split; [|split; [|split; [|split; [|by apply Hsub]]]]; rewrite Hrun.
  all: rewrite fetch_entries_executor by done.
  all: unfold fetch_with_executor; rewrite Hzero, collect_all_zero; cbn; done.
Qed.

Lemma mixed_entries_num_keep_zero_witness :
  0 < max_threads (self (set_num_keep 0 (fresh ["http://example.org/rss"]))) /\
  _num_keep (self (set_num_keep 0 (fresh ["http://example.org/rss"]))) = 0 /\
  (mixed_entries
     [("http://example.org/rss", Response (feed_of [january_2024]))]
     (set_num_keep 0 (fresh ["http://example.org/rss"]))).1 = Ok [].
Proof.
  split; [reflexivity|]. split; [reflexivity|].
  exact (proj1 (mixed_entries_num_keep_zero
                  [("http://example.org/rss", Response (feed_of [january_2024]))]
                  (set_num_keep 0 (fresh ["http://example.org/rss"]))
                  eq_refl eq_refl eq_refl)).
Defined.

(** ** Assigning [num_keep] caps the feeds again *)

(** X13: assigning [num_keep] passes the stored feeds through the cap once
    more.  With a [max_feeds] that is not negative and feeds within it, as
    in every instance that a client can reach, the feeds are unchanged; with
    a negative [max_feeds] each assignment of [num_keep] drops the last
    [|max_feeds|] feeds that are left. *)
Theorem set_num_keep_feeds (value : Z) (p : Process) :
  _feeds (self (set_num_keep value p))
  = py_slice 0 (max_feeds (self p)) (_feeds (self p)) /\
  (0 <= max_feeds (self p) ->
   Z.of_nat (length (_feeds (self p))) <= max_feeds (self p) ->
   _feeds (self (set_num_keep value p)) = _feeds (self p)) /\
  (max_feeds (self p) < 0 ->
   _feeds (self (set_num_keep value p))
   = take (length (_feeds (self p)) - Z.to_nat (- max_feeds (self p)))
       (_feeds (self p))).
Proof.
  split; [done|]. split.
  - intros Hmax Hcap. cbn. by apply py_slice_all.
  - intros Hneg. cbn. by apply py_slice_drop_last.
Qed.

Lemma set_num_keep_feeds_witness :
  max_feeds (self {| self := __init__ "Title" EmptyString EmptyString
                               ["a"; "b"; "c"] 3 5 (-1);
                     submitted := [] |}) < 0 /\
  _feeds (self (set_num_keep 5
     {| self := __init__ "Title" EmptyString EmptyString ["a"; "b"; "c"] 3 5 (-1);
        submitted := [] |})) = ["a"].
Proof.
  split; [reflexivity|].
  exact (proj2 (proj2 (set_num_keep_feeds 5
     {| self := __init__ "Title" EmptyString EmptyString ["a"; "b"; "c"] 3 5 (-1);
        submitted := [] |})) eq_refl).
Defined.
